(** * go-snowflake: the ID generator, its decoder and its setters

    A shallow embedding of the source of package [snowflake] and the
    properties of its bit layout, its clock-drift defence and its sequence
    handling.  Line numbers are those of the package's source file.

    Conventions.
    - A Go [uint64], [int64] or [uint16] is a [Z]; every operation that can
      leave the type's range has its wrap-around written out ([uint64],
      [int64], [uint16] below).
    - [time.Now] and [time.Sleep] act on a [World]: the wall clock in
      nanoseconds, together with the amount by which the environment moves
      that clock before each reading (negative when the clock is stepped
      back).
    - The package-level variables are the fields of [Globals].
    - The two [for] loops take fuel; [None] means the fuel ran out. *)

From Stdlib Require Import ZArith Lia List String Bool.
Import ListNotations.

Local Open Scope Z_scope.

(** ** Machine integers *)

Definition uint64 (z : Z) : Z := z mod 2 ^ 64.
Definition uint16 (z : Z) : Z := z mod 2 ^ 16.
Definition int64 (z : Z) : Z := (z + 2 ^ 63) mod 2 ^ 64 - 2 ^ 63.

(** [a << n] on [uint64]. *)
Definition shl64 (a n : Z) : Z := uint64 (Z.shiftl a n).
(** [a - b] and [a * b] on [int64]. *)
Definition sub64 (a b : Z) : Z := int64 (a - b).
Definition mul64 (a b : Z) : Z := int64 (a * b).

(** ** Constants (lines 10-20) *)

Definition TimestampLength : Z := 43.
Definition MachineIDLength : Z := 9.
Definition SequenceLength : Z := 12.
Definition MaxSequence : Z := Z.shiftl 1 SequenceLength - 1.
Definition MaxTimestamp : Z := Z.shiftl 1 TimestampLength - 1.
Definition MaxMachineID : Z := Z.shiftl 1 MachineIDLength - 1.

Definition machineIDMoveLength : Z := SequenceLength.
Definition timestampMoveLength : Z := MachineIDLength + SequenceLength.

(** [time.Millisecond], a [time.Duration] in nanoseconds. *)
Definition Millisecond : Z := 1000000.

(** ** Errors

    [NextID] builds its two errors with [errors.New]; an error of the
    resolver is handed on as it is.  A value made by [errors.New] inside
    [NextID] is never equal to one the resolver returns, hence the separate
    constructor. *)

Inductive error : Type :=
| ClockBackwardError
| EpochRangeError
| ResolverError (msg : string).

Definition Error (e : error) : string :=
  match e with
  | ClockBackwardError =>
      "clock moved backward too much (>5s), refusing to generate ID"
  | EpochRangeError =>
      "the maximum life cycle of the snowflake algorithm is 2^43-1(millis), please check start-time"
  | ResolverError msg => msg
  end.

(** ** The clock *)

Record World : Type := mkWorld {
  wall : Z;             (* wall clock, nanoseconds since the Unix epoch *)
  elapse : nat -> Z;    (* what the clock moves by before the n-th reading *)
  reads : nat           (* readings taken so far *)
}.

(** [time.Now().UTC().UnixNano()]: the clock moves, then is read as an
    [int64]. *)
Definition Now (w : World) : World :=
  {| wall := wall w + elapse w (reads w);
     elapse := elapse w;
     reads := S (reads w) |}.

Definition UnixNano (w : World) : Z := int64 (wall w).

(** [time.Sleep d]: returns at once for [d <= 0], else the clock is [d]
    nanoseconds further (what the sleep lasts beyond [d] is part of the
    next [elapse]). *)
Definition Sleep (d : Z) (w : World) : World :=
  if d <=? 0 then w
  else {| wall := wall w + d; elapse := elapse w; reads := reads w |}.

(** [currentMillis] (lines 201-203); Go's [/] truncates, as [Z.quot]. *)
Definition currentMillis (w : World) : Z * World :=
  let w' := Now w in (Z.quot (UnixNano w') 1000000, w').

(** [waitForNextMillis] (lines 178-187). *)
Fixpoint waitForNextMillis (fuel : nat) (last : Z) (w : World)
  : option (Z * World) :=
  match fuel with
  | O => None
  | S fuel' =>
      let (now, w1) := currentMillis w in
      if now >? last then Some (now, w1)
      else waitForNextMillis fuel' last (Sleep 1 w1)
  end.

(** [elapsedTime] (lines 196-198); [s] is the start time as its nanoseconds
    since the Unix epoch. *)
Definition elapsedTime (noms s : Z) : Z :=
  sub64 noms (Z.quot (int64 s) 1000000).

(** ** The decoder *)

Record SID : Type := mkSID {
  Sequence : Z;
  MachineID : Z;
  Timestamp : Z;
  ID : Z
}.

(** [ParseID] (lines 161-172). *)
Definition ParseID (id : Z) : SID :=
  let t := Z.shiftr id (SequenceLength + MachineIDLength) in
  let sequence := Z.land id MaxSequence in
  let mID :=
    Z.shiftr (Z.land id (shl64 MaxMachineID SequenceLength)) SequenceLength in
  {| ID := id; Sequence := sequence; MachineID := mID; Timestamp := t |}.

(** The packing expression of [NextID] (lines 93-95). *)
Definition packID (df machineID seq : Z) : Z :=
  Z.lor (Z.lor (shl64 (uint64 df) timestampMoveLength)
               (shl64 machineID machineIDMoveLength))
        seq.

(** ** The sequence resolver *)

(** State of the default resolver. *)
Record AtomicState : Type := mkAtomic {
  lastTime : Z;   (* the millisecond last seen *)
  lastSeq : Z     (* the counter *)
}.

(** Modelled from the spec: [AtomicResolver], the default resolver, whose
    source file is not part of the sources at hand.  "If the incoming ms
    differs from the stored millisecond, reset the counter to 0 and adopt the
    new millisecond; otherwise atomically increment and return the new
    value."  Run by one caller at a time, so the compare-and-swap always
    succeeds. *)
Definition AtomicResolver (ms : Z) (a : AtomicState)
  : (Z * option string) * AtomicState :=
  if ms =? lastTime a then
    let c := uint16 (lastSeq a + 1) in
    ((c, None), {| lastTime := lastTime a; lastSeq := c |})
  else
    ((0, None), {| lastTime := ms; lastSeq := 0 |}).

Section Generator.

(** What a custom resolver keeps between calls. *)
Context {RS : Type}.

(** [type SequenceResolver func(ms int64) (uint16, error)] (line 28), with
    the state it closes over passed along. *)
Definition SequenceResolver : Type :=
  Z -> RS -> (Z * option string) * RS.

(** The package-level variables (lines 34-39), the state of the default
    resolver and that of a custom one. *)
Record Globals : Type := mkGlobals {
  resolver : option SequenceResolver;
  machineID : Z;
  startTime : Z;
  lastTimestamp : Z;
  atomicState : AtomicState;
  resolverState : RS
}.

Definition set_lastTimestamp (v : Z) (g : Globals) : Globals :=
  {| resolver := resolver g; machineID := machineID g;
     startTime := startTime g; lastTimestamp := v;
     atomicState := atomicState g; resolverState := resolverState g |}.

Definition set_machineID (v : Z) (g : Globals) : Globals :=
  {| resolver := resolver g; machineID := v;
     startTime := startTime g; lastTimestamp := lastTimestamp g;
     atomicState := atomicState g; resolverState := resolverState g |}.

Definition set_resolver (r : option SequenceResolver) (g : Globals)
  : Globals :=
  {| resolver := r; machineID := machineID g;
     startTime := startTime g; lastTimestamp := lastTimestamp g;
     atomicState := atomicState g; resolverState := resolverState g |}.

Definition set_atomicState (a : AtomicState) (g : Globals) : Globals :=
  {| resolver := resolver g; machineID := machineID g;
     startTime := startTime g; lastTimestamp := lastTimestamp g;
     atomicState := a; resolverState := resolverState g |}.

Definition set_resolverState (s : RS) (g : Globals) : Globals :=
  {| resolver := resolver g; machineID := machineID g;
     startTime := startTime g; lastTimestamp := lastTimestamp g;
     atomicState := atomicState g; resolverState := s |}.

(** A resolver as [NextID] calls it: a function of the millisecond that
    may change the globals.  The value it returns is a [uint16]. *)
Definition Resolve : Type := Z -> Globals -> (Z * option string) * Globals.

Definition runAtomic : Resolve := fun ms g =>
  let '(r, a) := AtomicResolver ms (atomicState g) in
  (r, set_atomicState a g).

Definition runCustom (r : SequenceResolver) : Resolve := fun ms g =>
  let '((seq, err), s) := r ms (resolverState g) in
  ((uint16 seq, err), set_resolverState s g).

(** [callSequenceResolver] (lines 188-194). *)
Definition callSequenceResolver (g : Globals) : Resolve :=
  match resolver g with
  | None => runAtomic
  | Some r => runCustom r
  end.

(** ** NextID *)

(** What a call returns: [(id, err)], with Go's [nil] as [None]. *)
Definition result : Type := Z * option error.

(** Lines 85-96: store the watermark, then range-check and pack. *)
Definition storeAndPack (now seq : Z) (g : Globals) : result * Globals :=
  let g := set_lastTimestamp now g in
  let df := elapsedTime now (startTime g) in
  if (df <? 0) || (uint64 df >? MaxTimestamp) then
    ((0, Some EpochRangeError), g)
  else
    ((packID df (machineID g) seq, None), g).

(** Lines 76-96: the loop on an exhausted sequence and what follows it. *)
Fixpoint awaitSequence (fuel : nat) (seqResolver : Resolve)
         (now seq : Z) (w : World) (g : Globals)
  : option (result * World * Globals) :=
  if seq >=? MaxSequence then
    match fuel with
    | O => None
    | S fuel' =>
        match waitForNextMillis (S fuel') now w with
        | None => None
        | Some (now', w') =>
            let '((seq', err), g') := seqResolver now' g in
            match err with
            | Some e => Some ((0, Some (ResolverError e)), w', g')
            | None => awaitSequence fuel' seqResolver now' seq' w' g'
            end
        end
    end
  else
    let (r, g') := storeAndPack now seq g in Some (r, w, g').

(** Lines 68-96. *)
Definition resolveAndPack (fuel : nat) (now : Z) (w : World) (g : Globals)
  : option (result * World * Globals) :=
  let seqResolver := callSequenceResolver g in
  let '((seq, err), g') := seqResolver now g in
  match err with
  | Some e => Some ((0, Some (ResolverError e)), w, g')
  | None => awaitSequence fuel seqResolver now seq w g'
  end.

(** [NextID] (lines 52-97). *)
Definition NextID (fuel : nat) (w : World) (g : Globals)
  : option (result * World * Globals) :=
  let (now, w) := currentMillis w in
  let last := lastTimestamp g in
  if now <? last then
    let backward := sub64 last now in
    if backward >? 5000 then
      Some ((0, Some ClockBackwardError), w, g)
    else
      let w := Sleep (mul64 backward Millisecond) w in
      let (now, w) := currentMillis w in
      resolveAndPack fuel now w g
  else
    resolveAndPack fuel now w g.

(** [ID] (lines 43-46). *)
Definition ID_ (fuel : nat) (w : World) (g : Globals)
  : option (Z * World * Globals) :=
  match NextID fuel w g with
  | Some ((id, _), w', g') => Some (id, w', g')
  | None => None
  end.

(** ** Setters *)

Inductive outcome (A : Type) : Type :=
| Returned (a : A)
| Panicked (msg : string).

(** [SetMachineID] (lines 130-135); [m] is a [uint16]. *)
Definition SetMachineID (m : Z) (g : Globals) : outcome Globals :=
  if m >? MaxMachineID then
    Panicked Globals "The machineID cannot be greater than 511"
  else
    Returned Globals (set_machineID (uint64 m) g).

(** [SetSequenceResolver] (lines 139-143). *)
Definition SetSequenceResolver (seq : option SequenceResolver)
           (g : Globals) : Globals :=
  match seq with
  | Some r => set_resolver (Some r) g
  | None => g
  end.

End Generator.

Arguments Globals : clear implicits.
Arguments SequenceResolver : clear implicits.
Arguments Returned {A} a.
Arguments Panicked {A} msg.

(** The variables as the package initialises them (lines 34-39): no custom
    resolver, machine 0, 2008-11-10 23:00:00 UTC, watermark 0. *)
Definition initial {RS : Type} (s : RS) : Globals RS :=
  {| resolver := None;
     machineID := 0;
     startTime := 1226358000 * 1000000000;
     lastTimestamp := 0;
     atomicState := {| lastTime := 0; lastSeq := 0 |};
     resolverState := s |}.

(** ** Times and the start time *)

(** A [time.Time] is the instant it denotes, in nanoseconds since the Unix
    epoch, as for [startTime] and [wall].  [UTC] keeps the instant and drops
    the monotonic reading, so [After] compares instants.  The zero [Time] is
    January 1 of the year 1, 00:00:00 UTC. *)
Definition zeroTime : Z := - 62135596800 * 1000000000.
Definition IsZero (t : Z) : bool := t =? zeroTime.
Definition After (t u : Z) : bool := t >? u.

(** [a + b] on [int64]. *)
Definition add64 (a b : Z) : Z := int64 (a + b).

Section Epoch.

Context {RS : Type}.

Definition set_startTime (v : Z) (g : Globals RS) : Globals RS :=
  {| resolver := resolver g; machineID := machineID g;
     startTime := v; lastTimestamp := lastTimestamp g;
     atomicState := atomicState g; resolverState := resolverState g |}.

(** [SetStartTime] (lines 108-126): [time.Now] is read once for [After] and
    once more by [currentMillis]. *)
Definition SetStartTime (s : Z) (w : World) (g : Globals RS)
  : outcome (World * Globals RS) :=
  if IsZero s then
    Panicked "The start time cannot be a zero value"
  else
    let w1 := Now w in
    if After s (wall w1) then
      Panicked "The s cannot be greater than the current millisecond"
    else
      let (now, w2) := currentMillis w1 in
      let df := elapsedTime now s in
      if uint64 df >? MaxTimestamp then
        Panicked "The maximum life cycle of the snowflake algorithm is 279 years"
      else
        Returned (w2, set_startTime s g).

(** [GenerateTime] (lines 154-158): [time.Unix(0, n)] is the instant [n]
    nanoseconds after the Unix epoch. *)
Definition GenerateTime (id : SID) (g : Globals RS) : Z :=
  let ms :=
    add64 (Z.quot (int64 (startTime g)) 1000000) (int64 (Timestamp id)) in
  mul64 ms Millisecond.

End Epoch.

(** * Vocabulary of the statements *)

Section Vocabulary.

Context {RS : Type}.

(** Milliseconds that a reading of the clock can yield. *)
Definition msRange (ms : Z) : Prop :=
  - 9223372036854 <= ms <= 9223372036854.

(** The clock is never set back. *)
Definition forward (w : World) : Prop := forall n, 0 <= elapse w n.

(** Two states with the same configuration and watermark: they differ at
    most in what the resolvers keep. *)
Definition sameConfig (g g' : Globals RS) : Prop :=
  resolver g' = resolver g /\ machineID g' = machineID g /\
  startTime g' = startTime g /\ lastTimestamp g' = lastTimestamp g.

(** The start time in milliseconds, as [elapsedTime] computes it. *)
Definition epochMillis (s : Z) : Z := Z.quot (int64 s) 1000000.

(** A run that got as far as line 85: the resolver, called last for the
    millisecond [nowf] in a state [gp], gave [seqf] below the ceiling, and
    lines 85-96 ran on that.  [now], [w] and [ge] are the reading, the
    world and the state the first resolver call was made with: either that
    call settled it, or the last call was for a later millisecond. *)
Definition Settled (g0 gb ge : Globals RS) (now : Z) (w : World)
           (r : result) (w' : World) (g' : Globals RS) : Prop :=
  exists nowf seqf gp gm,
    0 <= seqf < MaxSequence /\
    sameConfig gb gp /\
    callSequenceResolver g0 nowf gp = ((seqf, None), gm) /\
    storeAndPack nowf seqf gm = (r, g') /\
    ((nowf = now /\ w' = w /\ gp = ge) \/
     (now < nowf /\ nowf = Z.quot (UnixNano w') 1000000)).

(** A run that ended with an error of the resolver, before line 85. *)
Definition ResolverFailed (gb : Globals RS) (r : result)
           (g' : Globals RS) : Prop :=
  exists e, r = (0, Some (ResolverError e)) /\ sameConfig gb g'.

(** The first reading of a call (line 53). *)
Definition firstReading (w : World) : Z :=
  Z.quot (UnixNano (Now w)) 1000000.

(** The world after the sleep and the second reading of lines 64-65. *)
Definition afterDrift (w : World) (g : Globals RS) : World :=
  Now (Sleep (mul64 (sub64 (lastTimestamp g) (firstReading w)) Millisecond)
             (Now w)).

(** What holds of the variables in every state the package can be in: the
    machine ID went through [SetMachineID], and the watermark is 0 or a
    reading of [currentMillis]. *)
Definition Inv (g : Globals RS) : Prop :=
  0 <= machineID g <= MaxMachineID /\ msRange (lastTimestamp g).

(** Lines 85-96 ran for the reading [now] and the sequence [seq]. *)
Definition Packed (g : Globals RS) (now seq : Z) (r : result)
           (g' : Globals RS) : Prop :=
  exists gm,
    sameConfig g gm /\ g' = set_lastTimestamp now gm /\
    let df := now - epochMillis (startTime g) in
    elapsedTime now (startTime g) = df /\
    (((df < 0 \/ MaxTimestamp < df) /\ r = (0, Some EpochRangeError)) \/
     (0 <= df <= MaxTimestamp /\ r = (packID df (machineID g) seq, None))).

(** The world after [k] rounds of [waitForNextMillis] that did not return:
    each round reads the clock and then sleeps 1 ns. *)
Fixpoint spin (k : nat) (w : World) : World :=
  match k with
  | O => w
  | S k' => spin k' (Sleep 1 (Now w))
  end.

(** [waitForNextMillis last] takes the world from [w] to [w']: it read the
    clock, sleeping 1 ns after each reading that was not beyond [last], and
    [w'] is the world at the first reading beyond [last]. *)
Definition waited (last : Z) (w w' : World) : Prop :=
  exists k : nat,
    w' = Now (spin k w) /\
    last < Z.quot (UnixNano w') 1000000 /\
    forall j : nat,
      (j < k)%nat -> Z.quot (UnixNano (Now (spin j w))) 1000000 <= last.


(** Within one millisecond a custom resolver never returns less than it
    returned the call before, as long as that was below the ceiling. *)
Definition nonDecreasing (r : SequenceResolver RS) : Prop :=
  forall ms s x s1 y s2,
    r ms s = ((x, None), s1) ->
    uint16 x < MaxSequence ->
    r ms s1 = ((y, None), s2) ->
    uint16 x <= uint16 y.

(** The resolver in use is the default one or a non-decreasing one. *)
Definition orderedResolver (g : Globals RS) : Prop :=
  match resolver g with
  | None => True
  | Some r => nonDecreasing r
  end.

(** The pair that the order of the IDs is about. *)
Definition stamp (id : Z) : Z * Z :=
  (Timestamp (ParseID id), Sequence (ParseID id)).

(** The lexicographic order, first component first. *)
Definition lexLe (a b : Z * Z) : Prop :=
  fst a < fst b \/ (fst a = fst b /\ snd a <= snd b).

(** Within one millisecond a custom resolver returns more than it returned
    the call before, as long as that was below the ceiling. *)
Definition strictlyIncreasing (r : SequenceResolver RS) : Prop :=
  forall ms s x s1 y s2,
    r ms s = ((x, None), s1) ->
    uint16 x < MaxSequence ->
    r ms s1 = ((y, None), s2) ->
    uint16 x < uint16 y.

End Vocabulary.

(** * Sample configurations and clocks *)

(** One second after the default start time; 0.3 ms pass before each
    reading. *)
Definition clock2008 : World :=
  mkWorld (1226358001 * 1000000000) (fun _ => 300000) 0.

(** The default configuration with machine ID 5. *)
Definition machine5 : Globals unit := set_machineID 5 (initial tt).

(** 2026-10-30 00:00:00 UTC. *)
Definition clock2026 : World :=
  mkWorld (1793318400 * 1000000000) (fun _ => 300000) 0.

(** The default configuration with the start time 1880-01-01 00:00:00 UTC,
    which [SetStartTime] accepts in 2026: not zero, in the past, and less
    than [MaxTimestamp] milliseconds ago. *)
Definition epoch1880 : Globals unit :=
  {| resolver := None;
     machineID := 0;
     startTime := - 2840140800 * 1000000000;
     lastTimestamp := 0;
     atomicState := {| lastTime := 0; lastSeq := 0 |};
     resolverState := tt |}.

(** 2000-01-01 00:00:00 UTC, before the default start time. *)
Definition clock2000 : World :=
  mkWorld (946684800 * 1000000000) (fun _ => 300000) 0.

(** [clock2026], jumping ahead by 4.2 * 10^9 seconds (some 133 years) before
    its third reading. *)
Definition clockJump : World :=
  mkWorld (1793318400 * 1000000000)
          (fun n => match n with
                    | 2%nat => 4200000000 * 1000000000
                    | _ => 300000
                    end) 0.

(** Ten nanoseconds before a millisecond ends, and moving only while the
    caller sleeps. *)
Definition clockNearTick : World :=
  mkWorld 1226358001000999990 (fun _ => 0) 0.

(** A custom resolver that always fails. *)
Definition failing : SequenceResolver unit := fun _ s =>
  ((0, Some "no sequence"%string), s).

(** A custom resolver that counts up within a millisecond, from 0; its
    state is the millisecond it was last called for and the value it
    gave. *)
Definition counter : SequenceResolver (Z * Z) := fun ms s =>
  if ms =? fst s then ((snd s + 1, None), (fst s, snd s + 1))
  else ((0, None), (ms, 0)).

(** [counter] installed, not called yet. *)
Definition counting : Globals (Z * Z) :=
  {| resolver := Some counter;
     machineID := 5;
     startTime := 1226358000 * 1000000000;
     lastTimestamp := 0;
     atomicState := {| lastTime := 0; lastSeq := 0 |};
     resolverState := (0, 0) |}.

(** The watermark 6000 ms ahead of the first reading of [clock2008]. *)
Definition ahead6000 : Globals unit :=
  set_lastTimestamp (1226358001000 + 6000) (initial tt).



(** A custom resolver that counts down within a millisecond: 4094 for the
    first call of a millisecond, then 4093, 4092, ...; every value it gives
    within one millisecond is different, and after 0 it is exhausted (the
    [uint16] it returns is then above the ceiling).  Its state is the
    millisecond it was last called for and the value it gave. *)
Definition countdown : SequenceResolver (Z * Z) := fun ms s =>
  if ms =? fst s then ((snd s - 1, None), (fst s, snd s - 1))
  else ((4094, None), (ms, 4094)).

(** [countdown] installed, not called yet. *)
Definition descending : Globals (Z * Z) :=
  {| resolver := Some countdown;
     machineID := 0;
     startTime := 1226358000 * 1000000000;
     lastTimestamp := 0;
     atomicState := {| lastTime := 0; lastSeq := 0 |};
     resolverState := (0, 0) |}.

(** A clock that is set back by 100 ms before its second reading and by
    another 50 ms before its third. *)
Definition clockSetBackTwice : World :=
  mkWorld (1226358001 * 1000000000)
          (fun n => match n with
                    | 1%nat => - 100000000
                    | 2%nat => - 50000000
                    | _ => 300000
                    end) 0.

(** The watermark 100 ms ahead of the first reading of [clock2008]. *)
Definition ahead100 : Globals unit :=
  set_lastTimestamp (1226358001000 + 100) (initial tt).

(** * The bit layout *)

Section Layout.

Lemma uint64_small (z : Z) : 0 <= z < 2 ^ 64 -> uint64 z = z.
Proof. intros H. unfold uint64. now apply Z.mod_small. Qed.

Lemma uint64_range (z : Z) : 0 <= uint64 z < 2 ^ 64.
Proof. unfold uint64. apply Z.mod_pos_bound. lia. Qed.

Lemma uint16_range (z : Z) : 0 <= uint16 z < 2 ^ 16.
Proof. unfold uint16. apply Z.mod_pos_bound. lia. Qed.

Lemma int64_small (z : Z) : - 2 ^ 63 <= z < 2 ^ 63 -> int64 z = z.
Proof. intros H. unfold int64. rewrite Z.mod_small; lia. Qed.

Lemma int64_range (z : Z) : - 2 ^ 63 <= int64 z < 2 ^ 63.
Proof.
  unfold int64.
  pose proof (Z.mod_pos_bound (z + 2 ^ 63) (2 ^ 64)). lia.
Qed.

(** A value shifted left by at least [k] has its [k] low bits clear, also
    after the wrap to 64 bits. *)
Lemma shl64_low (a n k : Z) :
  0 <= k <= n -> n <= 64 -> Z.land (shl64 a n) (Z.ones k) = 0.
Proof.
  intros Hk Hn. unfold shl64, uint64.
  rewrite Z.land_ones by lia.
  rewrite Z.mod_mod_divide.
  - rewrite Z.shiftl_mul_pow2 by lia.
    replace n with ((n - k) + k) by lia.
    rewrite Z.pow_add_r by lia.
    rewrite Z.mul_assoc. apply Z.mod_mul.
    apply Z.pow_nonzero; lia.
  - exists (2 ^ (64 - k)). rewrite <- Z.pow_add_r by lia.
    f_equal. lia.
Qed.

(** The sequence field is the [seq] that was packed, whatever the other
    two fields are. *)
Lemma Sequence_packID (df m s : Z) :
  0 <= s <= MaxSequence -> Sequence (ParseID (packID df m s)) = s.
Proof.
  intros Hs. unfold ParseID, packID; cbn [Sequence].
  change MaxSequence with (Z.ones 12) in *.
  rewrite !Z.land_lor_distr_l.
  unfold timestampMoveLength, machineIDMoveLength,
    MachineIDLength, SequenceLength.
  rewrite !shl64_low by lia. cbn [Z.lor].
  rewrite Z.land_ones by lia.
  apply Z.mod_small. change (Z.ones 12) with 4095 in Hs. lia.
Qed.

Lemma shl64_exact (a n : Z) :
  0 <= n -> 0 <= a -> a * 2 ^ n < 2 ^ 64 -> shl64 a n = a * 2 ^ n.
Proof.
  intros Hn Ha Hb. unfold shl64.
  rewrite Z.shiftl_mul_pow2 by lia.
  apply uint64_small. split; [ | exact Hb ].
  apply Z.mul_nonneg_nonneg; [ exact Ha | apply Z.pow_nonneg; lia ].
Qed.

Lemma Timestamp_packID (df m s : Z) :
  0 <= df <= MaxTimestamp -> 0 <= m <= MaxMachineID ->
  0 <= s <= MaxSequence ->
  Timestamp (ParseID (packID df m s)) = df.
Proof.
  intros Hdf Hm Hs. unfold ParseID, packID; cbn [Timestamp].
  change MaxTimestamp with (2 ^ 43 - 1) in Hdf.
  change MaxMachineID with 511 in Hm.
  change MaxSequence with 4095 in Hs.
  change timestampMoveLength with 21.
  change machineIDMoveLength with 12.
  change (SequenceLength + MachineIDLength) with 21.
  rewrite (uint64_small df) by lia.
  rewrite (shl64_exact df 21), (shl64_exact m 12) by lia.
  rewrite !Z.shiftr_lor, !Z.shiftr_div_pow2 by lia.
  rewrite Z.div_mul by lia.
  rewrite (Z.div_small (m * 2 ^ 12)), (Z.div_small s) by lia.
  now rewrite !Z.lor_0_r.
Qed.

Lemma MachineID_packID (df m s : Z) :
  0 <= df <= MaxTimestamp -> 0 <= m <= MaxMachineID ->
  0 <= s <= MaxSequence ->
  MachineID (ParseID (packID df m s)) = m.
Proof.
  intros Hdf Hm Hs. unfold ParseID, packID; cbn [MachineID].
  change MaxTimestamp with (2 ^ 43 - 1) in Hdf.
  change MaxMachineID with 511 in Hm.
  change MaxSequence with 4095 in Hs.
  change timestampMoveLength with 21.
  change machineIDMoveLength with 12.
  change SequenceLength with 12.
  rewrite (uint64_small df) by lia.
  rewrite (shl64_exact df 21), (shl64_exact m 12) by lia.
  rewrite Z.shiftr_land.
  change (Z.shiftr (shl64 MaxMachineID 12) 12) with (Z.ones 9).
  rewrite !Z.shiftr_lor, !Z.shiftr_div_pow2 by lia.
  replace (df * 2 ^ 21) with (df * 2 ^ 9 * 2 ^ 12) by lia.
  rewrite !Z.div_mul by lia.
  rewrite (Z.div_small s), Z.lor_0_r by lia.
  rewrite Z.land_lor_distr_l, !Z.land_ones by lia.
  rewrite Z.mod_mul by lia.
  rewrite Z.mod_small by lia.
  reflexivity.
Qed.

(** The packed word is a [uint64]. *)
Lemma packID_range (df m s : Z) :
  0 <= s < 2 ^ 16 -> 0 <= packID df m s < 2 ^ 64.
Proof.
  intros Hs. unfold packID, shl64.
  pose proof (uint64_range (Z.shiftl (uint64 df) timestampMoveLength)) as Ha.
  pose proof (uint64_range (Z.shiftl m machineIDMoveLength)) as Hb.
  set (a := uint64 (Z.shiftl (uint64 df) timestampMoveLength)) in *.
  set (b := uint64 (Z.shiftl m machineIDMoveLength)) in *.
  assert (Hlor : forall x y, 0 <= x < 2 ^ 64 -> 0 <= y < 2 ^ 64 ->
                             0 <= Z.lor x y < 2 ^ 64).
  { intros x y Hx Hy. split.
    - apply Z.lor_nonneg. lia.
    - destruct (Z.eq_dec (Z.lor x y) 0) as [E | E]; [ lia | ].
      apply Z.log2_lt_pow2.
      + assert (0 <= Z.lor x y) by (apply Z.lor_nonneg; lia). lia.
      + rewrite Z.log2_lor by lia.
        apply Z.max_lub_lt.
        * destruct (Z.eq_dec x 0) as [-> | Nx]; [ cbn; lia | ].
          apply Z.log2_lt_pow2; lia.
        * destruct (Z.eq_dec y 0) as [-> | Ny]; [ cbn; lia | ].
          apply Z.log2_lt_pow2; lia. }
  apply Hlor; [ apply Hlor; assumption | lia ].
Qed.

(** Bit 63 of a packed word is bit 42 of the elapsed time: the three
    widths add up to 64, so no bit is left over. *)
Lemma top_bit_is_bit42 (df m s : Z) :
  0 <= df <= MaxTimestamp -> 0 <= m <= MaxMachineID ->
  0 <= s <= MaxSequence ->
  Z.testbit (packID df m s) 63 = Z.testbit df 42.
Proof.
  intros Hdf Hm Hs. unfold packID.
  change MaxTimestamp with (2 ^ 43 - 1) in Hdf.
  change MaxMachineID with 511 in Hm.
  change MaxSequence with 4095 in Hs.
  change timestampMoveLength with 21.
  change machineIDMoveLength with 12.
  rewrite (uint64_small df) by lia.
  rewrite (shl64_exact df 21), (shl64_exact m 12) by lia.
  rewrite !Z.lor_spec, !Z.mul_pow2_bits by lia.
  change (63 - 21) with 42. change (63 - 12) with 51.
  assert (Em : Z.testbit m 51 = false).
  { apply Z.testbit_false; [ lia | ]. now rewrite Z.div_small by lia. }
  assert (Es : Z.testbit s 63 = false).
  { apply Z.testbit_false; [ lia | ]. now rewrite Z.div_small by lia. }
  now rewrite Em, Es, !orb_false_r.
Qed.

End Layout.

(** * The clock and the resolver *)

Section Clock.

Lemma quot_million_range (x : Z) :
  - 2 ^ 63 <= x < 2 ^ 63 -> msRange (Z.quot x 1000000).
Proof.
  intros Hx. unfold msRange.
  assert (Elo : Z.quot (- 2 ^ 63) 1000000 = - 9223372036854) by reflexivity.
  assert (Ehi : Z.quot (2 ^ 63 - 1) 1000000 = 9223372036854) by reflexivity.
  pose proof (Z.quot_le_mono (- 2 ^ 63) x 1000000) as Hlo.
  pose proof (Z.quot_le_mono x (2 ^ 63 - 1) 1000000) as Hhi.
  rewrite Elo in Hlo. rewrite Ehi in Hhi. lia.
Qed.

Lemma quot_million_mono (x y : Z) :
  x <= y -> Z.quot x 1000000 <= Z.quot y 1000000.
Proof. intros H. apply Z.quot_le_mono; lia. Qed.

Lemma currentMillis_range (w : World) : msRange (fst (currentMillis w)).
Proof.
  unfold currentMillis, UnixNano; cbn [fst].
  apply quot_million_range, int64_range.
Qed.

Lemma currentMillis_world (w : World) :
  snd (currentMillis w) = Now w /\
  fst (currentMillis w) = Z.quot (UnixNano (Now w)) 1000000.
Proof. split; reflexivity. Qed.

Lemma waitForNextMillis_S (fuel : nat) (last : Z) (w : World) :
  waitForNextMillis (S fuel) last w =
  if Z.quot (UnixNano (Now w)) 1000000 >? last
  then Some (Z.quot (UnixNano (Now w)) 1000000, Now w)
  else waitForNextMillis fuel last (Sleep 1 (Now w)).
Proof. reflexivity. Qed.

(** [waitForNextMillis] returns a reading beyond [last], taken from the
    world it leaves. *)
Lemma waitForNextMillis_spec (fuel : nat) :
  forall last w now w',
    waitForNextMillis fuel last w = Some (now, w') ->
    last < now /\ now = Z.quot (UnixNano w') 1000000 /\
    elapse w' = elapse w.
Proof.
  induction fuel as [ | fuel IH]; intros last w now w' H.
  - discriminate.
  - rewrite waitForNextMillis_S in H.
    destruct (Z.gtb_spec (Z.quot (UnixNano (Now w)) 1000000) last)
      as [Hgt | Hle].
    + injection H as <- <-. repeat split; lia.
    + apply IH in H. destruct H as (H1 & H2 & H3).
      repeat split; assumption.
Qed.

(** What [waitForNextMillis] returns is the first reading beyond [last]. *)
Lemma waitForNextMillis_waited (fuel : nat) :
  forall last w now w',
    waitForNextMillis fuel last w = Some (now, w') ->
    waited last w w'.
Proof.
  induction fuel as [ | fuel IH]; intros last w now w' H.
  - discriminate.
  - rewrite waitForNextMillis_S in H.
    destruct (Z.gtb_spec (Z.quot (UnixNano (Now w)) 1000000) last)
      as [Hgt | Hle].
    + injection H as <- <-. exists 0%nat.
      split; [ reflexivity | ]. split; [ exact Hgt | ].
      intros j Hj. inversion Hj.
    + apply IH in H. destruct H as (k & Hw & Hlt & Hbefore).
      exists (S k). split; [ exact Hw | ]. split; [ exact Hlt | ].
      intros [ | j] Hj; [ exact Hle | ].
      apply (Hbefore j). now apply PeanoNat.lt_S_n.
Qed.

(** With a clock after 1970 that is never set back and moves by at most [E]
    nanoseconds between readings, the wait ends within as many rounds as
    there are nanoseconds left until the millisecond after [last] begins,
    plus one. *)
Lemma waitForNextMillis_ends (E : Z) (fuel : nat) :
  forall (last : Z) (w : World),
    forward w -> (forall n, elapse w n <= E) ->
    0 <= wall w ->
    wall w + (Z.of_nat fuel + 1) * (E + 1) < 2 ^ 63 ->
    (last + 1) * 1000000 <= wall w + Z.of_nat fuel ->
    exists now w', waitForNextMillis (S fuel) last w = Some (now, w').
Proof.
  induction fuel as [ | fuel IH]; intros last w F B Hlo Hhi Hnear;
    rewrite waitForNextMillis_S;
    pose proof (F (reads w)) as F0; pose proof (B (reads w)) as B0;
    assert (HE : 0 <= E) by lia;
    assert (Hw1 : wall (Now w) = wall w + elapse w (reads w)) by reflexivity.
  - assert (Hr : last < Z.quot (UnixNano (Now w)) 1000000).
    { unfold UnixNano. rewrite int64_small by lia.
      rewrite Z.quot_div_nonneg by lia.
      apply Z.lt_le_trans with (last + 1); [ lia | ].
      apply Z.div_le_lower_bound; lia. }
    destruct (Z.gtb_spec (Z.quot (UnixNano (Now w)) 1000000) last);
      [ eauto | lia ].
  - destruct (Z.gtb_spec (Z.quot (UnixNano (Now w)) 1000000) last)
      as [Hgt | Hle]; [ eauto | ].
    assert (Hmul : 0 <= Z.of_nat (S fuel) * (E + 1))
      by (apply Z.mul_nonneg_nonneg; lia).
    assert (Hs : wall (Sleep 1 (Now w)) = wall w + elapse w (reads w) + 1)
      by reflexivity.
    rewrite Nat2Z.inj_succ in *.
    apply IH; [ exact F | exact B | rewrite Hs .. ]; nia.
Qed.

(** With a clock that is never set back, the wall clock only grows. *)
Lemma Now_forward (w : World) :
  forward w -> wall w <= wall (Now w) /\ forward (Now w).
Proof.
  intros F. split; [ cbn; specialize (F (reads w)); lia | exact F ].
Qed.

Lemma Sleep_forward (d : Z) (w : World) :
  forward w -> wall w <= wall (Sleep d w) /\ forward (Sleep d w).
Proof.
  intros F. unfold Sleep.
  destruct (Z.leb_spec d 0); split; cbn; try lia; exact F.
Qed.

Lemma waitForNextMillis_forward (fuel : nat) :
  forall last w now w',
    forward w ->
    waitForNextMillis fuel last w = Some (now, w') ->
    wall w <= wall w' /\ forward w'.
Proof.
  induction fuel as [ | fuel IH]; intros last w now w' F H.
  - discriminate.
  - rewrite waitForNextMillis_S in H.
    destruct (Now_forward w F) as [L1 F1].
    destruct (Z.quot (UnixNano (Now w)) 1000000 >? last).
    + injection H as <- <-. now split.
    + destruct (Sleep_forward 1 (Now w) F1) as [L2 F2].
      apply IH in H; [ | exact F2 ].
      destruct H as [L3 F3]. split; [ lia | exact F3 ].
Qed.

End Clock.

(** * Runs of [NextID] *)

Section Runs.

Context {RS : Type}.

Lemma sameConfig_refl (g : Globals RS) : sameConfig g g.
Proof. repeat split. Qed.

Lemma sameConfig_trans (g1 g2 g3 : Globals RS) :
  sameConfig g1 g2 -> sameConfig g2 g3 -> sameConfig g1 g3.
Proof.
  intros (A1 & A2 & A3 & A4) (B1 & B2 & B3 & B4).
  repeat split; congruence.
Qed.

(** A resolver call leaves the configuration and the watermark alone and
    returns a [uint16]. *)
Lemma callSequenceResolver_spec (g0 : Globals RS) ms g seq err g' :
  callSequenceResolver g0 ms g = ((seq, err), g') ->
  sameConfig g g' /\ 0 <= seq < 2 ^ 16.
Proof.
  unfold callSequenceResolver. destruct (resolver g0) as [r | ].
  - unfold runCustom.
    destruct (r ms (resolverState g)) as [[s e] st].
    intros H. injection H as <- <- <-.
    split; [ repeat split | apply uint16_range ].
  - unfold runAtomic, AtomicResolver.
    destruct (ms =? lastTime (atomicState g));
      intros H; injection H as <- <- <-;
      (split; [ repeat split | ]).
    + apply uint16_range.
    + lia.
Qed.

(** The resolver in use depends on the configuration only. *)
Lemma callSequenceResolver_config (g g' : Globals RS) :
  sameConfig g g' -> callSequenceResolver g' = callSequenceResolver g.
Proof.
  intros (E & _). unfold callSequenceResolver. now rewrite E.
Qed.

Lemma callSequenceResolver_resolver (g g' : Globals RS) :
  resolver g' = resolver g ->
  callSequenceResolver g' = callSequenceResolver g.
Proof. intros E. unfold callSequenceResolver. now rewrite E. Qed.

Lemma elapsedTime_exact (now s : Z) :
  msRange now -> elapsedTime now s = now - epochMillis s.
Proof.
  intros Hn. unfold elapsedTime, sub64, epochMillis.
  pose proof (quot_million_range (int64 s) (int64_range s)) as He.
  unfold msRange in *. apply int64_small. lia.
Qed.

(** Lines 85-96, case by case. *)
Lemma storeAndPack_spec now seq (g : Globals RS) r g' :
  storeAndPack now seq g = (r, g') ->
  g' = set_lastTimestamp now g /\
  let df := elapsedTime now (startTime g) in
  ((df < 0 \/ MaxTimestamp < df) /\ r = (0, Some EpochRangeError)) \/
  (0 <= df <= MaxTimestamp /\ r = (packID df (machineID g) seq, None)).
Proof.
  unfold storeAndPack. cbn [startTime machineID set_lastTimestamp].
  set (df := elapsedTime now (startTime g)).
  assert (Hr : - 2 ^ 63 <= df < 2 ^ 63) by apply int64_range.
  destruct (Z.ltb_spec df 0) as [Hneg | Hpos]; cbn [orb].
  - intros H. injection H as <- <-. split; [ reflexivity | ].
    left. split; [ now left | reflexivity ].
  - rewrite (uint64_small df) by lia.
    destruct (Z.gtb_spec df MaxTimestamp) as [Hbig | Hok];
      intros H; injection H as <- <-; (split; [ reflexivity | ]).
    + left. split; [ now right | reflexivity ].
    + right. split; [ lia | reflexivity ].
Qed.

Lemma awaitSequence_eq fuel (R : Resolve) now seq w (g : Globals RS) :
  awaitSequence fuel R now seq w g =
  if seq >=? MaxSequence then
    match fuel with
    | O => None
    | S fuel' =>
        match waitForNextMillis (S fuel') now w with
        | None => None
        | Some (now', w') =>
            let '((seq', err), g') := R now' g in
            match err with
            | Some e => Some ((0, Some (ResolverError e)), w', g')
            | None => awaitSequence fuel' R now' seq' w' g'
            end
        end
    end
  else
    let (r, g') := storeAndPack now seq g in Some (r, w, g').
Proof. destruct fuel; reflexivity. Qed.

Lemma awaitSequence_inv (g0 gb : Globals RS) (fuel : nat) :
  forall now seq w gp g r w' g',
    sameConfig gb gp ->
    callSequenceResolver g0 now gp = ((seq, None), g) ->
    awaitSequence fuel (callSequenceResolver g0) now seq w g
      = Some (r, w', g') ->
    ResolverFailed gb r g' \/ Settled g0 gb gp now w r w' g'.
Proof.
  induction fuel as [ | fuel IH]; intros now seq w gp g r w' g' Hc Hcall H;
    rewrite awaitSequence_eq in H;
    destruct (callSequenceResolver_spec _ _ _ _ _ _ Hcall) as [Hcfg Hseq];
    destruct (Z.geb_spec seq MaxSequence) as [Hfull | Hfree];
    try discriminate.
  - destruct (storeAndPack now seq g) as [r0 g0'] eqn:Esp.
    injection H as <- <- <-. right.
    exists now, seq, gp, g.
    split; [ lia | ]. do 3 (split; [ assumption | ]).
    left. repeat split.
  - destruct (waitForNextMillis (S fuel) now w) as [[now1 w1] | ] eqn:Ew;
      [ | discriminate ].
    apply waitForNextMillis_spec in Ew. destruct Ew as (Hlt & Hread & _).
    destruct (callSequenceResolver g0 now1 g) as [[seq1 [e | ]] g1] eqn:Ec.
    + injection H as <- <- <-. left. exists e. split; [ reflexivity | ].
      destruct (callSequenceResolver_spec _ _ _ _ _ _ Ec) as [Hcfg1 _].
      eauto using sameConfig_trans.
    + assert (Hgb : sameConfig gb g) by eauto using sameConfig_trans.
      destruct (IH _ _ _ _ _ _ _ _ Hgb Ec H) as [Hf | Hs];
        [ now left | right ].
      destruct Hs as (nowf & seqf & gq & gm & Hb & Hq & Hr & Hsp & Hw).
      exists nowf, seqf, gq, gm.
      do 4 (split; [ assumption | ]).
      right. destruct Hw as [(-> & -> & _) | [Hlt' Hrd]]; split; try lia;
        assumption.
  - destruct (storeAndPack now seq g) as [r0 g0'] eqn:Esp.
    injection H as <- <- <-. right.
    exists now, seq, gp, g.
    split; [ lia | ]. do 3 (split; [ assumption | ]).
    left. repeat split.
Qed.

Lemma resolveAndPack_inv (fuel : nat) now w (g : Globals RS) r w' g' :
  resolveAndPack fuel now w g = Some (r, w', g') ->
  ResolverFailed g r g' \/ Settled g g g now w r w' g'.
Proof.
  unfold resolveAndPack.
  destruct (callSequenceResolver g now g) as [[seq [e | ]] g1] eqn:Ec;
    intros H.
  - injection H as <- <- <-. left. exists e. split; [ reflexivity | ].
    now destruct (callSequenceResolver_spec _ _ _ _ _ _ Ec).
  - eapply awaitSequence_inv; eauto using sameConfig_refl.
Qed.

(** The ways a call of [NextID] ends. *)
Lemma NextID_inv (fuel : nat) w (g : Globals RS) r w' g' :
  NextID fuel w g = Some (r, w', g') ->
  (firstReading w < lastTimestamp g /\
   5000 < sub64 (lastTimestamp g) (firstReading w) /\
   r = (0, Some ClockBackwardError) /\ w' = Now w /\ g' = g)
  \/ ResolverFailed g r g'
  \/ (lastTimestamp g <= firstReading w /\
      Settled g g g (firstReading w) (Now w) r w' g')
  \/ (firstReading w < lastTimestamp g /\
      sub64 (lastTimestamp g) (firstReading w) <= 5000 /\
      Settled g g g (Z.quot (UnixNano (afterDrift w g)) 1000000)
              (afterDrift w g) r w' g').
Proof.
  unfold NextID, currentMillis. cbv zeta.
  fold (firstReading w).
  destruct (Z.ltb_spec (firstReading w) (lastTimestamp g)) as [Hback | Hok].
  - destruct (Z.gtb_spec (sub64 (lastTimestamp g) (firstReading w)) 5000)
      as [Hfar | Hnear]; intros H.
    + injection H as <- <- <-. left.
      split; [ assumption | ]. split; [ assumption | ].
      split; [ reflexivity | ]. split; reflexivity.
    + apply resolveAndPack_inv in H.
      destruct H as [Hf | Hs]; [ now right; left | ].
      right; right; right.
      split; [ assumption | ]. split; assumption.
  - intros H. apply resolveAndPack_inv in H.
    destruct H as [Hf | Hs]; [ now right; left | ].
    right; right; left. split; assumption.
Qed.

(** A settled run returns with the world as it was at the reading the ID
    is made from. *)
Lemma Settled_reading (g0 gb ge : Globals RS) now w r w' g' :
  now = Z.quot (UnixNano w) 1000000 ->
  Settled g0 gb ge now w r w' g' ->
  exists nowf seqf gp gm,
    0 <= seqf < MaxSequence /\
    sameConfig gb gp /\ sameConfig gb gm /\
    callSequenceResolver g0 nowf gp = ((seqf, None), gm) /\
    storeAndPack nowf seqf gm = (r, g') /\
    now <= nowf /\ nowf = Z.quot (UnixNano w') 1000000 /\ msRange nowf.
Proof.
  intros Hnow (nowf & seqf & gp & gm & Hb & Hp & Hr & Hsp & Hw).
  exists nowf, seqf, gp, gm.
  destruct (callSequenceResolver_spec _ _ _ _ _ _ Hr) as [Hcfg _].
  assert (Hread : nowf = Z.quot (UnixNano w') 1000000).
  { destruct Hw as [(-> & -> & _) | [_ E]]; assumption. }
  split; [ assumption | ]. split; [ assumption | ].
  split; [ eauto using sameConfig_trans | ].
  split; [ assumption | ]. split; [ assumption | ].
  split; [ destruct Hw as [(-> & _) | [Hlt _]]; lia | ].
  split; [ assumption | ].
  rewrite Hread. apply quot_million_range, int64_range.
Qed.

End Runs.

(** * What a call returns *)

Section Outcome.

Context {RS : Type}.

Lemma Settled_outcome (g ge : Globals RS) now w r w' g' :
  now = Z.quot (UnixNano w) 1000000 ->
  Settled g g ge now w r w' g' ->
  exists nowf seqf,
    0 <= seqf < MaxSequence /\ msRange nowf /\ now <= nowf /\
    nowf = Z.quot (UnixNano w') 1000000 /\
    Packed g nowf seqf r g'.
Proof.
  intros Hnow Hs.
  destruct (Settled_reading _ _ _ _ _ _ _ _ Hnow Hs)
    as (nowf & seqf & gp & gm & Hb & Hp & Hm & Hr & Hsp & Hle & Hrd & Hrg).
  exists nowf, seqf. do 4 (split; [ assumption | ]).
  exists gm. split; [ assumption | ].
  apply storeAndPack_spec in Hsp. destruct Hsp as [-> Hsp].
  split; [ reflexivity | ].
  destruct Hm as (_ & Em & Es & _). rewrite Em, Es in Hsp.
  cbv zeta in *.
  rewrite (elapsedTime_exact nowf (startTime g) Hrg) in Hsp.
  split; [ now apply elapsedTime_exact | exact Hsp ].
Qed.

(** Every call that returns ends in one of three ways: it refused a clock
    too far behind and touched nothing; the resolver failed before the
    watermark was stored; or it stored the reading [now] it settled on,
    range-checked [now - epoch] and packed. *)
Lemma NextID_outcome (fuel : nat) w (g : Globals RS) r w' g' :
  NextID fuel w g = Some (r, w', g') ->
  (r = (0, Some ClockBackwardError) /\ g' = g)
  \/ ResolverFailed g r g'
  \/ (exists now seq,
        0 <= seq < MaxSequence /\ msRange now /\
        now = Z.quot (UnixNano w') 1000000 /\
        Packed g now seq r g').
Proof.
  intros H. apply NextID_inv in H.
  destruct H as [(_ & _ & -> & _ & ->) | [Hf | [[_ Hs] | (_ & _ & Hs)]]].
  - now left.
  - now right; left.
  - right; right.
    apply Settled_outcome in Hs; [ | reflexivity ].
    destruct Hs as (nowf & seqf & A & B & _ & C & D).
    exists nowf, seqf. repeat (split; [ assumption | ]). exact D.
  - right; right.
    apply Settled_outcome in Hs; [ | reflexivity ].
    destruct Hs as (nowf & seqf & A & B & _ & C & D).
    exists nowf, seqf. repeat (split; [ assumption | ]). exact D.
Qed.

(** A successful call, spelled out. *)
Lemma NextID_success (fuel : nat) w (g : Globals RS) id w' g' :
  NextID fuel w g = Some ((id, None), w', g') ->
  exists now seq,
    0 <= seq < MaxSequence /\ msRange now /\
    now = Z.quot (UnixNano w') 1000000 /\
    lastTimestamp g' = now /\
    resolver g' = resolver g /\ machineID g' = machineID g /\
    startTime g' = startTime g /\
    0 <= now - epochMillis (startTime g) <= MaxTimestamp /\
    id = packID (now - epochMillis (startTime g)) (machineID g) seq.
Proof.
  intros H. apply NextID_outcome in H.
  destruct H as [[H _] | [(e & H & _) | H]]; try discriminate.
  destruct H as (now & seq & Hs & Hr & Hrd & gm & Hc & -> & _ & Hp).
  destruct Hp as [[_ Hp] | [Hdf Hp]]; [ discriminate | ].
  injection Hp as ->.
  destruct Hc as (C1 & C2 & C3 & _).
  exists now, seq.
  cbn [lastTimestamp resolver machineID startTime set_lastTimestamp].
  do 3 (split; [ assumption | ]). split; [ reflexivity | ].
  do 3 (split; [ assumption | ]). split; [ assumption | reflexivity ].
Qed.

(** [NextID] keeps the invariant. *)
Lemma NextID_Inv (fuel : nat) w (g : Globals RS) r w' g' :
  Inv g -> NextID fuel w g = Some (r, w', g') -> Inv g'.
Proof.
  intros [Hm Hl] H. apply NextID_outcome in H. unfold Inv.
  destruct H as [[_ ->] | [(e & _ & Hc) | H]].
  - now split.
  - destruct Hc as (_ & E1 & _ & E2). rewrite E1, E2. now split.
  - destruct H as (now & seq & _ & Hr & _ & gm & Hc & -> & _).
    destruct Hc as (_ & C2 & _).
    split; cbn [lastTimestamp machineID set_lastTimestamp];
      [ now rewrite C2 | exact Hr ].
Qed.

End Outcome.

Lemma initial_Inv {RS : Type} (s : RS) : Inv (initial s).
Proof. unfold Inv, msRange; cbn. change MaxMachineID with 511. lia. Qed.

(** * The decoder and the layout *)

(** C1. Round trip: for [0 <= df <= 2^43-1], [m <= 511] and [s <= 4095],
    [ParseID] of [(df << 21) | (m << 12) | s] has [Timestamp = df],
    [MachineID = m] and [Sequence = s]; so for every ID that [NextID]
    returns without error, [ParseID] gives back the machine ID of the
    configuration and the elapsed milliseconds [now - epoch] computed for
    the reading [now] that the call stored as watermark. *)
Theorem round_trip :
  (forall df m s : Z,
      0 <= df <= MaxTimestamp -> 0 <= m <= MaxMachineID ->
      0 <= s <= MaxSequence ->
      ParseID (packID df m s) =
      {| Sequence := s; MachineID := m; Timestamp := df;
         ID := packID df m s |})
  /\
  (forall (RS : Type) (fuel : nat) (w : World) (g : Globals RS)
          (id : Z) (w' : World) (g' : Globals RS),
      Inv g ->
      NextID fuel w g = Some ((id, None), w', g') ->
      MachineID (ParseID id) = machineID g /\
      Timestamp (ParseID id) = elapsedTime (lastTimestamp g') (startTime g) /\
      elapsedTime (lastTimestamp g') (startTime g) =
        lastTimestamp g' - epochMillis (startTime g)).
Proof.
  split.
  - intros df m s Hdf Hm Hs. unfold ParseID. f_equal.
    + exact (Sequence_packID df m s Hs).
    + exact (MachineID_packID df m s Hdf Hm Hs).
    + exact (Timestamp_packID df m s Hdf Hm Hs).
  - intros RS fuel w g id w' g' [Hm _] H.
    apply NextID_success in H.
    destruct H as (now & seq & Hs & Hr & _ & -> & _ & _ & _ & Hdf & ->).
    rewrite (elapsedTime_exact _ _ Hr).
    assert (Hs' : 0 <= seq <= MaxSequence) by lia.
    split; [ now apply MachineID_packID | ].
    split; [ now apply Timestamp_packID | reflexivity ].
Qed.

Lemma round_trip_witness :
  ParseID (packID 1000 5 42) =
  {| Sequence := 42; MachineID := 5; Timestamp := 1000;
     ID := packID 1000 5 42 |}
  /\ (MachineID (ParseID 2097172480) = 5 /\
      Timestamp (ParseID 2097172480) = elapsedTime 1226358001000
                                         (1226358000 * 1000000000) /\
      elapsedTime 1226358001000 (1226358000 * 1000000000) =
        1226358001000 - epochMillis (1226358000 * 1000000000)).
Proof.
  split.
  - apply (proj1 round_trip 1000 5 42); vm_compute; split; discriminate.
  - apply (proj2 round_trip unit 1%nat clock2008 machine5 2097172480
                 (Now clock2008)
                 (set_lastTimestamp 1226358001000
                    (set_atomicState
                       {| lastTime := 1226358001000; lastSeq := 0 |}
                       machine5))).
    + split; vm_compute; split; discriminate.
    + reflexivity.
Defined.

(** C2. The literal example: [(1000 << 21) | (5 << 12) | 42] is
    [2097172522], and [ParseID 2097172522] has [Timestamp = 1000],
    [MachineID = 5], [Sequence = 42]. *)
Theorem literal_example :
  packID 1000 5 42 = 2097172522 /\
  ParseID 2097172522 =
  {| Sequence := 42; MachineID := 5; Timestamp := 1000; ID := 2097172522 |}.
Proof. split; reflexivity. Qed.

(** C8. [ParseID] is defined on every 64-bit value: it returns a record
    whose [ID] is the input, with [Sequence <= 4095], [MachineID <= 511]
    and [Timestamp <= 2^43 - 1]. *)
Theorem ParseID_total (id : Z) :
  0 <= id < 2 ^ 64 ->
  exists sid : SID,
    ParseID id = sid /\ ID sid = id /\
    0 <= Sequence sid <= MaxSequence /\
    0 <= MachineID sid <= MaxMachineID /\
    0 <= Timestamp sid <= MaxTimestamp.
Proof.
  intros Hid. exists (ParseID id). split; [ reflexivity | ].
  split; [ reflexivity | ].
  unfold ParseID; cbn [Sequence MachineID Timestamp].
  change (Z.land id MaxSequence) with (Z.land id (Z.ones 12)).
  change MaxSequence with 4095.
  change MaxMachineID with 511.
  change MaxTimestamp with (2 ^ 43 - 1).
  change (SequenceLength + MachineIDLength) with 21.
  change SequenceLength with 12.
  rewrite Z.shiftr_land.
  change (Z.shiftr (shl64 511 12) 12) with (Z.ones 9).
  rewrite !Z.land_ones, !Z.shiftr_div_pow2 by lia.
  pose proof (Z.mod_pos_bound id (2 ^ 12) ltac:(lia)).
  pose proof (Z.mod_pos_bound (id / 2 ^ 12) (2 ^ 9) ltac:(lia)).
  assert (0 <= id / 2 ^ 21 < 2 ^ 43).
  { split.
    - apply Z.div_pos; lia.
    - apply Z.div_lt_upper_bound; lia. }
  lia.
Qed.

Lemma ParseID_total_witness :
  exists sid : SID,
    ParseID (2 ^ 64 - 1) = sid /\ ID sid = 2 ^ 64 - 1 /\
    0 <= Sequence sid <= MaxSequence /\
    0 <= MachineID sid <= MaxMachineID /\
    0 <= Timestamp sid <= MaxTimestamp.
Proof. apply (ParseID_total (2 ^ 64 - 1)). lia. Defined.

(** C3. The top bit of a returned ID is not always zero.  The timestamp has
    43 bits and is shifted left by 21, so its highest bit is bit 63 of the
    ID: with the start time 1880-01-01 and the clock in 2026, [NextID]
    returns an ID above [2^63]. *)
Theorem top_bit_set :
  NextID 1 clock2026 epoch1880
  = Some ((9717068228198400000, None), Now clock2026,
          set_lastTimestamp 1793318400000
            (set_atomicState {| lastTime := 1793318400000; lastSeq := 0 |}
                             epoch1880))
  /\ Z.testbit 9717068228198400000 63 = true
  /\ Timestamp (ParseID 9717068228198400000) = 4633459200000
  /\ 2 ^ 42 <= 4633459200000 <= MaxTimestamp.
Proof.
  split; [ reflexivity | ]. split; [ reflexivity | ].
  split; [ reflexivity | ]. vm_compute. split; discriminate.
Qed.

(** * The clock-drift defence and the range check *)

(** C4. When the first reading [now] of a call is more than 5000 ms behind
    the watermark, [NextID] returns the clock-backward error with the ID 0
    and leaves every variable, the watermark included, as it was.  The
    watermark is 0 or an earlier reading ([Inv]), which is what [msRange]
    asks. *)
Theorem clock_backward_refused {RS : Type} (fuel : nat) (w : World)
        (g : Globals RS) :
  msRange (lastTimestamp g) ->
  5000 < lastTimestamp g - fst (currentMillis w) ->
  NextID fuel w g
  = Some ((0, Some ClockBackwardError), snd (currentMillis w), g).
Proof.
  intros Hl Hback.
  pose proof (currentMillis_range w) as Hn.
  unfold NextID. unfold currentMillis in *. cbv zeta in *.
  cbn [fst snd] in *.
  set (now := Z.quot (UnixNano (Now w)) 1000000) in *.
  unfold msRange in *.
  destruct (Z.ltb_spec now (lastTimestamp g)) as [Hlt | Hge]; [ | lia ].
  assert (E : sub64 (lastTimestamp g) now = lastTimestamp g - now)
    by (apply int64_small; lia).
  rewrite E.
  destruct (Z.gtb_spec (lastTimestamp g - now) 5000); [ reflexivity | lia ].
Qed.

Lemma clock_backward_refused_witness :
  NextID 3 clock2008 ahead6000
  = Some ((0, Some ClockBackwardError), snd (currentMillis clock2008),
          ahead6000).
Proof.
  apply (clock_backward_refused 3 clock2008 ahead6000).
  - vm_compute. split; discriminate.
  - vm_compute. reflexivity.
Defined.



(** With the clock before the start time the call stores the watermark and
    then fails the range check. *)
Example epoch_range_before_start :
  NextID 1 clock2000 machine5
  = Some ((0, Some EpochRangeError), Now clock2000,
          set_lastTimestamp 946684800000
            (set_atomicState {| lastTime := 946684800000; lastSeq := 0 |}
                             machine5))
  /\ 946684800000 - epochMillis (startTime machine5) < 0.
Proof. split; reflexivity. Qed.

(** * The setters *)

(** C9. [SetMachineID m] panics exactly when [m > 511]; for [m <= 511] it
    returns and the machine ID is [m] from then on. *)
Theorem SetMachineID_panics {RS : Type} (m : Z) (g : Globals RS) :
  0 <= m < 2 ^ 16 ->
  MaxMachineID = 511 /\
  ((exists msg, SetMachineID m g = Panicked msg) <-> 511 < m) /\
  (m <= 511 ->
   SetMachineID m g = Returned (set_machineID m g) /\
   forall g', SetMachineID m g = Returned g' -> machineID g' = m).
Proof.
  intros Hm. split; [ reflexivity | ].
  unfold SetMachineID. change MaxMachineID with 511.
  destruct (Z.gtb_spec m 511) as [Hgt | Hle].
  - split.
    + split; [ intros _; exact Hgt | intros _; eexists; reflexivity ].
    + lia.
  - rewrite (uint64_small m) by lia. split.
    + split; [ intros [msg H]; discriminate | lia ].
    + intros _. split; [ reflexivity | ].
      intros g' H. injection H as <-. reflexivity.
Qed.

Lemma SetMachineID_panics_witness :
  MaxMachineID = 511 /\
  ((exists msg, SetMachineID 5 (initial tt) = Panicked msg) <-> 511 < 5) /\
  (5 <= 511 ->
   SetMachineID 5 (initial tt) = Returned (set_machineID 5 (initial tt)) /\
   forall g', SetMachineID 5 (initial tt) = Returned g' -> machineID g' = 5).
Proof. apply (SetMachineID_panics 5 (initial tt)). lia. Defined.

Lemma SetMachineID_Inv {RS : Type} (m : Z) (g g' : Globals RS) :
  0 <= m < 2 ^ 16 -> Inv g -> SetMachineID m g = Returned g' -> Inv g'.
Proof.
  intros Hm [_ Hl]. unfold SetMachineID.
  destruct (Z.gtb_spec m MaxMachineID) as [Hgt | Hle]; [ discriminate | ].
  intros H. injection H as <-. rewrite (uint64_small m) by lia.
  split; [ cbn [machineID set_machineID]; lia | exact Hl ].
Qed.

(** * The sequence *)

Section SequenceRounds.

Context {RS : Type}.



End SequenceRounds.


(** * Order of the IDs of one caller *)

Section Order.

Context {RS : Type}.

Lemma awaitSequence_forward (R : @Resolve RS) (fuel : nat) :
  forall now seq w g r w' g',
    forward w ->
    awaitSequence fuel R now seq w g = Some (r, w', g') ->
    wall w <= wall w' /\ forward w'.
Proof.
  induction fuel as [ | fuel IH]; intros now seq w g r w' g' F H;
    rewrite awaitSequence_eq in H;
    destruct (seq >=? MaxSequence); try discriminate.
  1, 3:
    destruct (storeAndPack now seq g) as [r0 g0];
    injection H as <- <- <-; split; [ lia | exact F ].
  destruct (waitForNextMillis (S fuel) now w) as [[now1 w1] | ] eqn:Ew;
    [ | discriminate ].
  destruct (waitForNextMillis_forward _ _ _ _ _ F Ew) as [L1 F1].
  destruct (R now1 g) as [[seq1 [e | ]] g1].
  - injection H as <- <- <-. now split.
  - destruct (IH _ _ _ _ _ _ _ F1 H) as [L2 F2]. split; [ lia | exact F2 ].
Qed.

Lemma resolveAndPack_forward (fuel : nat) now w (g : Globals RS) r w' g' :
  forward w ->
  resolveAndPack fuel now w g = Some (r, w', g') ->
  wall w <= wall w' /\ forward w'.
Proof.
  intros F. unfold resolveAndPack.
  destruct (callSequenceResolver g now g) as [[seq [e | ]] g1]; intros H.
  - injection H as <- <- <-. split; [ lia | exact F ].
  - eapply awaitSequence_forward; eassumption.
Qed.

(** With a clock that is never set back, a call leaves the wall clock no
    earlier than its first reading. *)
Lemma NextID_forward (fuel : nat) w (g : Globals RS) r w' g' :
  forward w ->
  NextID fuel w g = Some (r, w', g') ->
  wall w <= wall (Now w) /\ wall (Now w) <= wall w' /\ forward w'.
Proof.
  intros F. destruct (Now_forward w F) as [L0 F0].
  unfold NextID, currentMillis. cbv zeta.
  destruct (_ <? _).
  - destruct (_ >? _); intros H.
    + injection H as <- <- <-. repeat split; try lia; exact F0.
    + match type of H with
      | resolveAndPack _ _ (Now (Sleep ?d _)) _ = _ =>
          destruct (Sleep_forward d (Now w) F0) as [L1 F1];
          destruct (Now_forward _ F1) as [L2 F2]
      end.
      destruct (resolveAndPack_forward _ _ _ _ _ _ _ F2 H) as [L3 F3].
      repeat split; try lia; exact F3.
  - intros H.
    destruct (resolveAndPack_forward _ _ _ _ _ _ _ F0 H) as [L3 F3].
    repeat split; try lia; exact F3.
Qed.

(** Two calls in a row for the same millisecond, the watermark stored in
    between. *)
Lemma same_millisecond_again (g gp gm1 gm2 : Globals RS) ms v seq1 seq2 :
  orderedResolver g ->
  callSequenceResolver g ms gp = ((seq1, None), gm1) ->
  seq1 < MaxSequence ->
  callSequenceResolver g ms (set_lastTimestamp v gm1)
    = ((seq2, None), gm2) ->
  seq1 <= seq2.
Proof.
  unfold orderedResolver, callSequenceResolver.
  destruct (resolver g) as [r | ].
  - intros Hnd. unfold runCustom.
    destruct (r ms (resolverState gp)) as [[x e1] s1] eqn:E1.
    intros H1 Hlt. injection H1 as <- -> <-.
    cbn [resolverState set_lastTimestamp set_resolverState].
    destruct (r ms s1) as [[y e2] s2] eqn:E2.
    intros H2. injection H2 as <- -> _.
    exact (Hnd _ _ _ _ _ _ E1 Hlt E2).
  - intros _. unfold runAtomic, AtomicResolver.
    assert (Hstep : forall c, 0 <= c < MaxSequence -> c <= uint16 (c + 1)).
    { intros c Hc. unfold uint16. change MaxSequence with 4095 in Hc.
      rewrite Z.mod_small; lia. }
    destruct (Z.eqb_spec ms (lastTime (atomicState gp))) as [Eq | Ne];
      intros H1 Hlt; injection H1 as <- <-;
      cbn [atomicState set_lastTimestamp set_atomicState lastTime lastSeq].
    + rewrite <- Eq, Z.eqb_refl. intros H2. injection H2 as <- _.
      apply Hstep. pose proof (uint16_range (lastSeq (atomicState gp) + 1)).
      lia.
    + rewrite Z.eqb_refl. intros H2. injection H2 as <- _.
      apply Hstep. lia.
Qed.

Lemma stamp_packID (df m s : Z) :
  0 <= df <= MaxTimestamp -> 0 <= m <= MaxMachineID ->
  0 <= s < MaxSequence ->
  stamp (packID df m s) = (df, s).
Proof.
  intros Hdf Hm Hs. unfold stamp.
  rewrite Timestamp_packID, Sequence_packID by lia. reflexivity.
Qed.

(** A successful call whose first reading is not behind the watermark:
    either the first resolver call, made for that reading in the state the
    call began in, settled the sequence, or the ID is for a later
    millisecond. *)
Lemma NextID_first_call (fuel : nat) w (g : Globals RS) id w' g' :
  lastTimestamp g <= firstReading w ->
  NextID fuel w g = Some ((id, None), w', g') ->
  exists now seq,
    0 <= seq < MaxSequence /\
    0 <= now - epochMillis (startTime g) <= MaxTimestamp /\
    id = packID (now - epochMillis (startTime g)) (machineID g) seq /\
    ((now = firstReading w /\
      exists gm, callSequenceResolver g now g = ((seq, None), gm))
     \/ firstReading w < now).
Proof.
  intros Hle H. apply NextID_inv in H.
  destruct H as [(Hlt & _) | [(e & He & _) | [[_ Hs] | (Hlt & _)]]];
    try lia; try discriminate.
  destruct Hs as (nowf & seqf & gp & gm & Hb & Hp & Hr & Hsp & Hw).
  assert (Hrg : msRange nowf).
  { destruct Hw as [(-> & _) | [_ ->]];
      apply quot_million_range, int64_range. }
  apply storeAndPack_spec in Hsp. destruct Hsp as [_ Hsp].
  cbv zeta in Hsp.
  destruct (callSequenceResolver_spec _ _ _ _ _ _ Hr) as [Hcfg _].
  destruct (sameConfig_trans _ _ _ Hp Hcfg) as (_ & Em & Es & _).
  rewrite Em, Es, (elapsedTime_exact _ _ Hrg) in Hsp.
  destruct Hsp as [[_ Hsp] | [Hdf Hsp]]; [ discriminate | ].
  injection Hsp as ->.
  exists nowf, seqf. do 3 (split; [ first [ assumption | reflexivity ] | ]).
  destruct Hw as [(-> & _ & ->) | [Hlt _]]; [ left | now right ].
  split; [ reflexivity | now exists gm ].
Qed.

(** A successful call, with the resolver call that settled it. *)
Lemma NextID_last_call (fuel : nat) w (g : Globals RS) id w' g' :
  NextID fuel w g = Some ((id, None), w', g') ->
  exists now seq gp gm,
    0 <= seq < MaxSequence /\
    now = Z.quot (UnixNano w') 1000000 /\
    callSequenceResolver g now gp = ((seq, None), gm) /\
    sameConfig g gm /\
    g' = set_lastTimestamp now gm /\
    0 <= now - epochMillis (startTime g) <= MaxTimestamp /\
    id = packID (now - epochMillis (startTime g)) (machineID g) seq.
Proof.
  intros H. apply NextID_inv in H.
  assert (Hs : exists now w0 ge,
             now = Z.quot (UnixNano w0) 1000000 /\
             Settled g g ge now w0 (id, None) w' g').
  { destruct H as [(_ & _ & He & _) | [(e & He & _) | [[_ Hs] | (_ & _ & Hs)]]];
      try discriminate; eauto. }
  destruct Hs as (now0 & w0 & ge & Hnow & Hs).
  destruct (Settled_reading _ _ _ _ _ _ _ _ Hnow Hs)
    as (nowf & seqf & gp & gm & Hb & Hp & Hm & Hr & Hsp & _ & Hrd & Hrg).
  apply storeAndPack_spec in Hsp. destruct Hsp as [-> Hsp].
  cbv zeta in Hsp.
  destruct Hm as (Er & Em & Es & El).
  rewrite Em, Es, (elapsedTime_exact _ _ Hrg) in Hsp.
  destruct Hsp as [[_ Hsp] | [Hdf Hsp]]; [ discriminate | ].
  injection Hsp as ->.
  exists nowf, seqf, gp, gm.
  do 3 (split; [ assumption | ]).
  split; [ repeat split; assumption | ].
  split; [ reflexivity | ]. split; [ assumption | reflexivity ].
Qed.

(** C7, for the resolvers it holds for.  With a clock that is never set
    back (and stays within what [UnixNano] can represent), and with the
    default resolver or a custom one that is non-decreasing within a
    millisecond, two successful calls of [NextID] in a row give IDs whose
    (timestamp, sequence) pairs do not decrease in the lexicographic
    order. *)
Theorem ids_non_decreasing (fuel1 fuel2 : nat) (w : World) (g : Globals RS)
        (id1 id2 : Z) (w1 w2 : World) (g1 g2 : Globals RS) :
  Inv g ->
  orderedResolver g ->
  forward w ->
  - 2 ^ 63 <= wall w -> wall w2 < 2 ^ 63 ->
  NextID fuel1 w g = Some ((id1, None), w1, g1) ->
  NextID fuel2 w1 g1 = Some ((id2, None), w2, g2) ->
  lexLe (stamp id1) (stamp id2).
Proof.
  intros [Hmach _] Hord F Hlo Hhi H1 H2.
  destruct (NextID_forward _ _ _ _ _ _ F H1) as (La & Lb & F1).
  destruct (NextID_forward _ _ _ _ _ _ F1 H2) as (Lc & Ld & _).
  destruct (NextID_last_call _ _ _ _ _ _ H1)
    as (now1 & seq1 & gp & gm1 & Hs1 & Hrd1 & Hcall1 & Hcfg & -> & Hdf1
        & ->).
  assert (Hmono : now1 <= firstReading w1).
  { rewrite Hrd1. unfold firstReading, UnixNano.
    rewrite !int64_small by lia. apply quot_million_mono. lia. }
  destruct Hcfg as (Er & Em & Es & _).
  assert (Hle : lastTimestamp (set_lastTimestamp now1 gm1)
                <= firstReading w1) by exact Hmono.
  destruct (NextID_first_call _ _ _ _ _ _ Hle H2)
    as (now2 & seq2 & Hs2 & Hdf2 & -> & Hcase).
  cbn [startTime machineID set_lastTimestamp] in *.
  rewrite Es, Em in *.
  rewrite !stamp_packID by assumption.
  unfold lexLe; cbn [fst snd].
  destruct Hcase as [[Hnow2 [gm2 Hcall2]] | Hlater]; [ | left; lia ].
  destruct (Z.eq_dec now1 now2) as [Heq | Hne]; [ right | left; lia ].
  split; [ now rewrite Heq | ].
  rewrite <- Heq in Hcall2.
  rewrite (callSequenceResolver_resolver g) in Hcall2 by exact Er.
  exact (same_millisecond_again _ _ _ _ _ _ _ _ Hord Hcall1 (proj2 Hs1)
                                Hcall2).
Qed.

End Order.

Lemma ids_non_decreasing_witness :
  lexLe (stamp 2097172480) (stamp 2097172481).
Proof.
  apply (ids_non_decreasing 1 1 clock2008 machine5 2097172480 2097172481
           (Now clock2008) (Now (Now clock2008))
           (set_lastTimestamp 1226358001000
              (set_atomicState {| lastTime := 1226358001000; lastSeq := 0 |}
                               machine5))
           (set_lastTimestamp 1226358001000
              (set_atomicState {| lastTime := 1226358001000; lastSeq := 1 |}
                               machine5))).
  - split; vm_compute; split; discriminate.
  - exact I.
  - intros n. vm_compute. discriminate.
  - vm_compute. discriminate.
  - vm_compute. reflexivity.
  - reflexivity.
  - reflexivity.
Defined.

(** C7 as stated, for whatever resolver is installed, fails: with
    [countdown] and a clock that only moves forward, two calls in the same
    millisecond return the sequences 4094 and then 4093. *)
Lemma descending_ids :
  Inv descending /\
  forward clock2008 /\
  - 2 ^ 63 <= wall clock2008 /\ wall (Now (Now clock2008)) < 2 ^ 63 /\
  NextID 1 clock2008 descending
  = Some ((2097156094, None), Now clock2008,
          set_lastTimestamp 1226358001000
            (set_resolverState (1226358001000, 4094) descending)) /\
  NextID 1 (Now clock2008)
         (set_lastTimestamp 1226358001000
            (set_resolverState (1226358001000, 4094) descending))
  = Some ((2097156093, None), Now (Now clock2008),
          set_lastTimestamp 1226358001000
            (set_resolverState (1226358001000, 4093) descending)) /\
  stamp 2097156094 = (1000, 4094) /\
  stamp 2097156093 = (1000, 4093) /\
  ~ lexLe (stamp 2097156094) (stamp 2097156093).
Proof.
  split; [ split; vm_compute; split; discriminate | ].
  split; [ intros n; vm_compute; discriminate | ].
  split; [ vm_compute; discriminate | ].
  split; [ vm_compute; reflexivity | ].
  split; [ reflexivity | ]. split; [ reflexivity | ].
  split; [ reflexivity | ]. split; [ reflexivity | ].
  change (stamp 2097156094) with (1000, 4094).
  change (stamp 2097156093) with (1000, 4093).
  unfold lexLe; cbn [fst snd]. lia.
Qed.

(** * The watermark *)

(** C10. The watermark a successful call stores can be older than the one
    it read.  The reading taken after the sleep of lines 64-65 is not
    compared with the watermark again.  From the initial variables, with the
    resolver [counter] installed by [SetSequenceResolver]: a first call
    succeeds and stores the watermark 1226358001000; the clock is set back
    by 100 ms; the second call reads 100 ms behind the watermark, sleeps
    100 ms while the clock is set back by another 50 ms, reads 50 ms behind,
    returns an ID without error and stores the watermark 1226358000950,
    50 ms older than the one it read. *)
Theorem watermark_set_back :
  NextID 1 clockSetBackTwice
         (SetSequenceResolver (Some counter) (initial (0, 0)))
  = Some ((2097152000, None), Now clockSetBackTwice,
          set_lastTimestamp 1226358001000
            (set_resolverState (1226358001000, 0)
               (SetSequenceResolver (Some counter) (initial (0, 0)))))
  /\ NextID 1 (Now clockSetBackTwice)
         (set_lastTimestamp 1226358001000
            (set_resolverState (1226358001000, 0)
               (SetSequenceResolver (Some counter) (initial (0, 0)))))
     = Some ((1992294400, None),
             Now (Sleep (100 * Millisecond) (Now (Now clockSetBackTwice))),
             set_lastTimestamp 1226358000950
               (set_resolverState (1226358000950, 0)
                  (SetSequenceResolver (Some counter) (initial (0, 0)))))
  /\ fst (currentMillis (Now clockSetBackTwice)) = 1226358001000 - 100
  /\ fst (currentMillis (Sleep (100 * Millisecond)
                                (Now (Now clockSetBackTwice))))
     = 1226358001000 - 50
  /\ lastTimestamp
       (set_lastTimestamp 1226358000950
          (set_resolverState (1226358000950, 0)
             (SetSequenceResolver (Some counter) (initial (0, 0)))))
     < lastTimestamp
         (set_lastTimestamp 1226358001000
            (set_resolverState (1226358001000, 0)
               (SetSequenceResolver (Some counter) (initial (0, 0))))).
Proof.
  split; [ reflexivity | ]. split; [ reflexivity | ].
  split; [ reflexivity | ]. split; reflexivity.
Qed.

Lemma quot_add_millis (x b : Z) :
  0 <= x -> 0 <= b ->
  Z.quot (x + b * 1000000) 1000000 = Z.quot x 1000000 + b.
Proof.
  intros Hx Hb. rewrite !Z.quot_div_nonneg by lia.
  apply Z.div_add. lia.
Qed.

(** X13. What the code does guarantee about the watermark: as long as the
    clock is not set back again while the call runs (and is after 1970 and
    within what [UnixNano] can represent), a successful call does not store
    an older watermark than it read, also after the sleep of lines 64-65. *)
Lemma watermark_not_older {RS : Type} (fuel : nat) (w : World)
      (g : Globals RS) (id : Z) (w' : World) (g' : Globals RS) :
  Inv g -> forward w -> 0 <= wall w -> wall w' < 2 ^ 63 ->
  NextID fuel w g = Some ((id, None), w', g') ->
  lastTimestamp g <= lastTimestamp g'.
Proof.
  intros [_ Hl] F Hlo Hhi H.
  destruct (Now_forward w F) as [L0 F0].
  pose proof H as H0. apply NextID_inv in H.
  destruct H as [(_ & _ & He & _) | [(e & He & _) | [[Hle Hs] | (Hlt & Hnear & Hs)]]];
    try discriminate.
  - apply Settled_outcome in Hs; [ | reflexivity ].
    destruct Hs as (nowf & seqf & _ & _ & Hge & _ & gm & _ & -> & _).
    cbn [lastTimestamp set_lastTimestamp]. lia.
  - unfold NextID, currentMillis in H0. cbv zeta in H0.
    fold (firstReading w) in H0.
    destruct (Z.ltb_spec (firstReading w) (lastTimestamp g)); [ | lia ].
    destruct (Z.gtb_spec (sub64 (lastTimestamp g) (firstReading w)) 5000);
      [ lia | ].
    fold (afterDrift w g) in H0.
    assert (Hfirst : msRange (firstReading w))
      by apply quot_million_range, int64_range.
    unfold msRange in Hl, Hfirst.
    assert (Eb : sub64 (lastTimestamp g) (firstReading w)
                 = lastTimestamp g - firstReading w)
      by (apply int64_small; lia).
    assert (Em : mul64 (lastTimestamp g - firstReading w) Millisecond
                 = (lastTimestamp g - firstReading w) * 1000000).
    { apply int64_small. rewrite Eb in Hnear. unfold Millisecond. lia. }
    assert (Hsleep : wall (Now w)
                     + (lastTimestamp g - firstReading w) * 1000000
                     <= wall (afterDrift w g) /\ forward (afterDrift w g)).
    { unfold afterDrift. rewrite Eb, Em. unfold Sleep.
      destruct (Z.leb_spec ((lastTimestamp g - firstReading w) * 1000000) 0);
        [ lia | ].
      split; [ cbn [wall Now elapse reads] | exact F ].
      pose proof (F (reads (Now w))). cbn [reads Now] in *. lia. }
    destruct Hsleep as [Ls Fs].
    destruct (resolveAndPack_forward _ _ _ _ _ _ _ Fs H0) as [Lw _].
    apply Settled_outcome in Hs; [ | reflexivity ].
    destruct Hs as (nowf & seqf & _ & _ & Hge & _ & gm & _ & -> & _).
    cbn [lastTimestamp set_lastTimestamp].
    assert (Hcatch : lastTimestamp g
                     <= Z.quot (UnixNano (afterDrift w g)) 1000000).
    { unfold UnixNano. rewrite int64_small by lia.
      replace (lastTimestamp g)
        with (firstReading w + (lastTimestamp g - firstReading w)) at 1
        by lia.
      unfold firstReading at 1. unfold UnixNano.
      rewrite (int64_small (wall (Now w))) by lia.
      rewrite <- quot_add_millis by lia.
      apply quot_million_mono. exact Ls. }
    lia.
Qed.

(** * More on the layout *)

Lemma land_shifted_low (a n y : Z) :
  0 <= n -> 0 <= y < 2 ^ n -> Z.land (a * 2 ^ n) y = 0.
Proof.
  intros Hn Hy. apply Z.bits_inj'. intros i Hi.
  rewrite Z.land_spec, Z.bits_0.
  destruct (Z.lt_ge_cases i n) as [Hlt | Hge].
  - now rewrite Z.mul_pow2_bits_low by lia.
  - assert (E : Z.testbit y i = false).
    { apply Z.testbit_false; [ exact Hi | ].
      rewrite Z.div_small; [ reflexivity | ].
      split; [ lia | ].
      apply Z.lt_le_trans with (2 ^ n); [ lia | ].
      apply Z.pow_le_mono_r; lia. }
    now rewrite E, andb_false_r.
Qed.

Lemma lor_shifted_low (a n y : Z) :
  0 <= n -> 0 <= y < 2 ^ n -> Z.lor (a * 2 ^ n) y = a * 2 ^ n + y.
Proof.
  intros Hn Hy.
  pose proof (Z.add_lor_land (a * 2 ^ n) y) as E.
  rewrite (land_shifted_low a n y Hn Hy) in E. lia.
Qed.

(** The packed word as a sum: the three fields do not overlap. *)
Lemma packID_sum (df m s : Z) :
  0 <= df <= MaxTimestamp -> 0 <= m <= MaxMachineID ->
  0 <= s <= MaxSequence ->
  packID df m s = df * 2 ^ 21 + m * 2 ^ 12 + s.
Proof.
  intros Hdf Hm Hs. unfold packID.
  change MaxTimestamp with (2 ^ 43 - 1) in Hdf.
  change MaxMachineID with 511 in Hm.
  change MaxSequence with 4095 in Hs.
  change timestampMoveLength with 21.
  change machineIDMoveLength with 12.
  rewrite (uint64_small df) by lia.
  rewrite (shl64_exact df 21), (shl64_exact m 12) by lia.
  rewrite (lor_shifted_low df 21 (m * 2 ^ 12)) by lia.
  replace (df * 2 ^ 21 + m * 2 ^ 12) with ((df * 2 ^ 9 + m) * 2 ^ 12) by lia.
  rewrite (lor_shifted_low (df * 2 ^ 9 + m) 12 s) by lia.
  reflexivity.
Qed.

(** The fields that [ParseID] extracts, as quotients and remainders. *)
Lemma ParseID_fields (id : Z) :
  Timestamp (ParseID id) = id / 2 ^ 21 /\
  MachineID (ParseID id) = (id / 2 ^ 12) mod 2 ^ 9 /\
  Sequence (ParseID id) = id mod 2 ^ 12.
Proof.
  unfold ParseID; cbn [Sequence MachineID Timestamp].
  change (Z.land id MaxSequence) with (Z.land id (Z.ones 12)).
  change (SequenceLength + MachineIDLength) with 21.
  change SequenceLength with 12.
  rewrite Z.shiftr_land.
  change (Z.shiftr (shl64 MaxMachineID 12) 12) with (Z.ones 9).
  rewrite !Z.land_ones, !Z.shiftr_div_pow2 by lia.
  repeat split.
Qed.

(** X1. IDs compare as numbers the way their fields compare
    lexicographically, timestamp first, then machine ID, then sequence. *)
Theorem packID_order (df1 m1 s1 df2 m2 s2 : Z) :
  0 <= df1 <= MaxTimestamp -> 0 <= m1 <= MaxMachineID ->
  0 <= s1 <= MaxSequence ->
  0 <= df2 <= MaxTimestamp -> 0 <= m2 <= MaxMachineID ->
  0 <= s2 <= MaxSequence ->
  (packID df1 m1 s1 < packID df2 m2 s2 <->
   df1 < df2 \/ (df1 = df2 /\ (m1 < m2 \/ (m1 = m2 /\ s1 < s2)))).
Proof.
  intros Hdf1 Hm1 Hs1 Hdf2 Hm2 Hs2.
  rewrite !packID_sum by assumption.
  change MaxMachineID with 511 in *.
  change MaxSequence with 4095 in *.
  change (2 ^ 21) with 2097152. change (2 ^ 12) with 4096.
  lia.
Qed.

Lemma packID_order_witness :
  packID 1000 5 42 < packID 1000 6 0 <->
  1000 < 1000 \/ (1000 = 1000 /\ (5 < 6 \/ (5 = 6 /\ 42 < 0))).
Proof.
  apply (packID_order 1000 5 42 1000 6 0);
    vm_compute; split; discriminate.
Defined.

(** X2. Different fields give different IDs: two packed words are equal
    only if timestamp, machine ID and sequence are all equal. *)
Theorem packID_injective (df1 m1 s1 df2 m2 s2 : Z) :
  0 <= df1 <= MaxTimestamp -> 0 <= m1 <= MaxMachineID ->
  0 <= s1 <= MaxSequence ->
  0 <= df2 <= MaxTimestamp -> 0 <= m2 <= MaxMachineID ->
  0 <= s2 <= MaxSequence ->
  packID df1 m1 s1 = packID df2 m2 s2 ->
  df1 = df2 /\ m1 = m2 /\ s1 = s2.
Proof.
  intros Hdf1 Hm1 Hs1 Hdf2 Hm2 Hs2 E.
  pose proof (Timestamp_packID df1 m1 s1 Hdf1 Hm1 Hs1) as T1.
  pose proof (MachineID_packID df1 m1 s1 Hdf1 Hm1 Hs1) as M1.
  pose proof (Sequence_packID df1 m1 s1 Hs1) as S1.
  rewrite E in T1, M1, S1.
  rewrite Timestamp_packID in T1 by assumption.
  rewrite MachineID_packID in M1 by assumption.
  rewrite Sequence_packID in S1 by assumption.
  repeat split; congruence.
Qed.

Lemma packID_injective_witness :
  1000 = 1000 /\ 5 = 5 /\ 42 = 42.
Proof.
  apply (packID_injective 1000 5 42 1000 5 42);
    vm_compute; first [ reflexivity | split; discriminate ].
Defined.

(** X3. Decoding loses nothing: the three widths add up to 64, so packing
    the fields that [ParseID] extracts from any 64-bit word gives the word
    back. *)
Theorem packID_ParseID (id : Z) :
  0 <= id < 2 ^ 64 ->
  packID (Timestamp (ParseID id)) (MachineID (ParseID id))
         (Sequence (ParseID id)) = id.
Proof.
  intros Hid.
  destruct (ParseID_fields id) as (-> & -> & ->).
  pose proof (Z.mod_pos_bound id (2 ^ 12) ltac:(lia)) as Hs.
  pose proof (Z.mod_pos_bound (id / 2 ^ 12) (2 ^ 9) ltac:(lia)) as Hm.
  assert (Ht : 0 <= id / 2 ^ 21 < 2 ^ 43).
  { split; [ apply Z.div_pos; lia | apply Z.div_lt_upper_bound; lia ]. }
  rewrite packID_sum;
    [ | change MaxTimestamp with (2 ^ 43 - 1); lia
      | change MaxMachineID with 511; lia
      | change MaxSequence with 4095; lia ].
  pose proof (Z.div_mod id (2 ^ 12) ltac:(lia)) as E1.
  pose proof (Z.div_mod (id / 2 ^ 12) (2 ^ 9) ltac:(lia)) as E2.
  rewrite Z.div_div in E2 by lia.
  change (2 ^ 12 * 2 ^ 9) with (2 ^ 21) in E2.
  lia.
Qed.

Lemma packID_ParseID_witness :
  packID (Timestamp (ParseID (2 ^ 64 - 1))) (MachineID (ParseID (2 ^ 64 - 1)))
         (Sequence (ParseID (2 ^ 64 - 1))) = 2 ^ 64 - 1.
Proof. apply (packID_ParseID (2 ^ 64 - 1)). lia. Defined.

(** * The generation time and the start time *)

(** X4. [GenerateTime] of a returned ID is the millisecond the ID was made
    for (the watermark the call stored), as an instant: the reading of the
    clock cut to whole milliseconds. *)
Theorem GenerateTime_NextID {RS : Type} (fuel : nat) (w : World)
        (g : Globals RS) (id : Z) (w' : World) (g' : Globals RS) :
  Inv g ->
  NextID fuel w g = Some ((id, None), w', g') ->
  GenerateTime (ParseID id) g' = lastTimestamp g' * 1000000 /\
  lastTimestamp g' = Z.quot (UnixNano w') 1000000 /\
  (0 <= wall w' < 2 ^ 63 ->
   GenerateTime (ParseID id) g' <= wall w'
   < GenerateTime (ParseID id) g' + 1000000).
Proof.
  intros [Hm _] H. apply NextID_success in H.
  destruct H as (now & seq & Hs & Hr & Hrd & Hl & _ & _ & Es & Hdf & ->).
  assert (Hgen : GenerateTime
                   (ParseID (packID (now - epochMillis (startTime g))
                                    (machineID g) seq)) g'
                 = now * 1000000).
  { unfold GenerateTime.
    rewrite Timestamp_packID by (try assumption; lia).
    rewrite Es. fold (epochMillis (startTime g)).
    change MaxTimestamp with (2 ^ 43 - 1) in Hdf.
    unfold add64, mul64, Millisecond, msRange in *.
    rewrite (int64_small (now - epochMillis (startTime g))) by lia.
    replace (epochMillis (startTime g) + (now - epochMillis (startTime g)))
      with now by lia.
    rewrite (int64_small now) by lia.
    apply int64_small. lia. }
  rewrite Hgen, Hl.
  split; [ reflexivity | ]. split; [ exact Hrd | ].
  intros Hw. rewrite Hrd. unfold UnixNano.
  rewrite int64_small by lia.
  rewrite Z.quot_div_nonneg by lia.
  pose proof (Z.div_mod (wall w') 1000000 ltac:(lia)).
  pose proof (Z.mod_pos_bound (wall w') 1000000 ltac:(lia)).
  lia.
Qed.

Lemma GenerateTime_NextID_witness :
  GenerateTime (ParseID 2097172480)
    (set_lastTimestamp 1226358001000
       (set_atomicState {| lastTime := 1226358001000; lastSeq := 0 |}
                        machine5))
  = 1226358001000 * 1000000.
Proof.
  apply (GenerateTime_NextID 1 clock2008 machine5 2097172480 (Now clock2008)
           (set_lastTimestamp 1226358001000
              (set_atomicState {| lastTime := 1226358001000; lastSeq := 0 |}
                               machine5))).
  - split; vm_compute; split; discriminate.
  - reflexivity.
Defined.

(** The checks of [SetStartTime], one by one. *)
Lemma SetStartTime_cases {RS : Type} (s : Z) (w : World)
      (g : Globals RS) :
  let now := fst (currentMillis (Now w)) in
  ((exists w' g', SetStartTime s w g = Returned (w', g')) <->
   (s <> zeroTime /\ s <= wall (Now w) /\
    0 <= elapsedTime now s <= MaxTimestamp))
  /\
  (forall w' g', SetStartTime s w g = Returned (w', g') ->
                 w' = snd (currentMillis (Now w)) /\ g' = set_startTime s g).
Proof.
  cbv zeta. unfold SetStartTime, IsZero, After, currentMillis.
  cbv zeta. cbn [fst snd].
  set (now := Z.quot (UnixNano (Now (Now w))) 1000000).
  pose proof (int64_range (now - Z.quot (int64 s) 1000000)) as Hdf.
  fold (sub64 now (Z.quot (int64 s) 1000000)) in Hdf.
  fold (elapsedTime now s) in Hdf.
  change MaxTimestamp with (2 ^ 43 - 1).
  destruct (Z.eqb_spec s zeroTime) as [Ez | Nz].
  { split; [ split | ]; [ intros (w' & g' & H); discriminate
                        | intros (C & _); contradiction
                        | intros w' g' H; discriminate ]. }
  destruct (Z.gtb_spec s (wall (Now w))) as [Hafter | Hpast].
  { split; [ split | ]; [ intros (w' & g' & H); discriminate
                        | intros (_ & C & _); lia
                        | intros w' g' H; discriminate ]. }
  assert (Hu : elapsedTime now s < 0 ->
               uint64 (elapsedTime now s) = elapsedTime now s + 2 ^ 64).
  { intros Hneg. unfold uint64.
    rewrite <- (Z.mod_add _ 1 (2 ^ 64)) by lia.
    rewrite Z.mod_small; lia. }
  destruct (Z.gtb_spec (uint64 (elapsedTime now s)) (2 ^ 43 - 1))
    as [Hbig | Hok].
  - split; [ split | ]; [ intros (w' & g' & H); discriminate
                        | | intros w' g' H; discriminate ].
    intros (_ & _ & Hr). rewrite uint64_small in Hbig by lia. lia.
  - split; [ split | ].
    + intros _. split; [ exact Nz | ]. split; [ exact Hpast | ].
      destruct (Z_lt_le_dec (elapsedTime now s) 0) as [Hneg | Hpos].
      * rewrite (Hu Hneg) in Hok. lia.
      * rewrite uint64_small in Hok by lia. lia.
    + intros _. eexists; eexists; reflexivity.
    + intros w' g' H. injection H as <- <-. split; reflexivity.
Qed.

(** X5. [SetStartTime s] returns exactly when [s] is not the zero time, is
    not after the clock, and the elapsed milliseconds that [elapsedTime]
    computes at the next reading are within [0, 2^43-1]: a negative elapsed
    time is rejected too, by the unsigned comparison.  It then changes the
    start time and nothing else. *)
Theorem SetStartTime_returns {RS : Type} (s : Z) (w : World)
        (g : Globals RS) :
  let now := fst (currentMillis (Now w)) in
  ((exists w' g', SetStartTime s w g = Returned (w', g')) <->
   (s <> zeroTime /\ s <= wall (Now w) /\
    0 <= elapsedTime now s <= MaxTimestamp))
  /\
  (forall w' g', SetStartTime s w g = Returned (w', g') ->
                 w' = snd (currentMillis (Now w)) /\ g' = set_startTime s g).
Proof. exact (SetStartTime_cases s w g). Qed.

Lemma SetStartTime_returns_witness :
  exists w' g',
    SetStartTime (- 2840140800 * 1000000000) clock2026 (initial tt)
    = Returned (w', g').
Proof.
  apply (proj2 (proj1 (SetStartTime_returns (- 2840140800 * 1000000000)
                                            clock2026 (initial tt)))).
  vm_compute. repeat split; discriminate.
Defined.

(** X6. After a [SetStartTime] that returned, and with a clock that is not
    set back, [NextID] never fails the range check for a negative elapsed
    time: the epoch-range error then means that more than [2^43-1]
    milliseconds have passed since the start time. *)
Theorem SetStartTime_then_NextID {RS : Type} (s : Z) (fuel : nat)
        (w w1 w2 : World) (g g1 g2 : Globals RS) (id : Z) :
  forward w ->
  - 2 ^ 63 <= wall w -> wall w2 < 2 ^ 63 ->
  SetStartTime s w g = Returned (w1, g1) ->
  NextID fuel w1 g1 = Some ((id, Some EpochRangeError), w2, g2) ->
  MaxTimestamp < lastTimestamp g2 - epochMillis s.
Proof.
  intros F Hlo Hhi Hset Hnext.
  destruct (SetStartTime_cases s w g) as [Hiff Hout].
  destruct (Hout _ _ Hset) as [-> ->].
  destruct (proj1 Hiff (ex_intro _ _ (ex_intro _ _ Hset)))
    as (_ & _ & Hdf & _).
  unfold currentMillis in *. cbv zeta in *. cbn [fst snd] in *.
  destruct (Now_forward w F) as [L0 F0].
  destruct (Now_forward (Now w) F0) as [L1 F1].
  destruct (NextID_forward _ _ _ _ _ _ F1 Hnext) as (L2 & L3 & _).
  rewrite elapsedTime_exact in Hdf
    by (apply quot_million_range, int64_range).
  apply NextID_outcome in Hnext.
  destruct Hnext as [[H _] | [(e & H & _) | H]]; try discriminate.
  destruct H as (now & seq & _ & _ & Hrd & gm & _ & -> & _ & Hp).
  cbn [startTime set_startTime lastTimestamp set_lastTimestamp] in *.
  destruct Hp as [[Hout' _] | [_ Hp]]; [ | discriminate ].
  destruct Hout' as [Hneg | Hbig]; [ | exact Hbig ].
  exfalso.
  assert (Z.quot (UnixNano (Now (Now w))) 1000000 <= now).
  { rewrite Hrd. unfold UnixNano. rewrite !int64_small by lia.
    apply quot_million_mono. lia. }
  lia.
Qed.

Lemma SetStartTime_then_NextID_witness :
  MaxTimestamp < 5993318400000 - epochMillis (- 2840140800 * 1000000000).
Proof.
  apply (SetStartTime_then_NextID (- 2840140800 * 1000000000) 1
           clockJump (Now (Now clockJump)) (Now (Now (Now clockJump)))
           (initial tt)
           (set_startTime (- 2840140800 * 1000000000) (initial tt))
           (set_lastTimestamp 5993318400000
              (set_atomicState {| lastTime := 5993318400000; lastSeq := 0 |}
                 (set_startTime (- 2840140800 * 1000000000) (initial tt))))
           0).
  - intros n. destruct n as [ | [ | [ | n]]]; vm_compute; discriminate.
  - vm_compute. discriminate.
  - vm_compute. reflexivity.
  - reflexivity.
  - reflexivity.
Defined.

(** * Waiting, the usual path and the errors *)

(** X7. [waitForNextMillis] ends: with a clock after 1970 that is never set
    back and moves by at most [E] nanoseconds between readings, it returns
    within as many rounds as there are nanoseconds left until the
    millisecond after [last] begins (plus one), provided the clock stays
    within what [UnixNano] can represent.  What it returns is a reading of
    the clock beyond [last], the first one after rounds of a reading and a
    1 ns sleep whose readings were not beyond [last]. *)
Theorem waitForNextMillis_returns (E : Z) (fuel : nat) (last : Z)
        (w : World) :
  forward w -> (forall n, elapse w n <= E) ->
  0 <= wall w ->
  wall w + (Z.of_nat fuel + 1) * (E + 1) < 2 ^ 63 ->
  (last + 1) * 1000000 <= wall w + Z.of_nat fuel ->
  exists now w',
    waitForNextMillis (S fuel) last w = Some (now, w') /\
    last < now /\
    now = Z.quot (UnixNano w') 1000000 /\
    waited last w w'.
Proof.
  intros F B Hlo Hhi Hnear.
  destruct (waitForNextMillis_ends E fuel last w F B Hlo Hhi Hnear)
    as (now & w' & Ew).
  exists now, w'. split; [ exact Ew | ].
  destruct (waitForNextMillis_spec _ _ _ _ _ Ew) as (Hlt & Hrd & _).
  split; [ exact Hlt | ]. split; [ exact Hrd | ].
  exact (waitForNextMillis_waited _ _ _ _ _ Ew).
Qed.

Lemma waitForNextMillis_returns_witness :
  exists now w',
    waitForNextMillis 11 1226358001000 clockNearTick = Some (now, w') /\
    1226358001000 < now /\
    now = Z.quot (UnixNano w') 1000000 /\
    waited 1226358001000 clockNearTick w'.
Proof.
  apply (waitForNextMillis_returns 0 10 1226358001000 clockNearTick).
  - intros n. vm_compute. discriminate.
  - intros n. vm_compute. discriminate.
  - vm_compute. discriminate.
  - vm_compute. reflexivity.
  - vm_compute. discriminate.
Defined.

(** X8. The usual path needs no fuel: when the first reading is not behind
    the watermark, the resolver gives a value below the ceiling and the
    elapsed time is in range, [NextID] returns after that one reading and
    that one resolver call, with the ID packed from them and the reading
    stored as watermark. *)
Theorem NextID_without_waiting {RS : Type} (fuel : nat) (w : World)
        (g g1 : Globals RS) (seq : Z) :
  lastTimestamp g <= fst (currentMillis w) ->
  callSequenceResolver g (fst (currentMillis w)) g = ((seq, None), g1) ->
  seq < MaxSequence ->
  0 <= elapsedTime (fst (currentMillis w)) (startTime g) <= MaxTimestamp ->
  NextID fuel w g
  = Some ((packID (elapsedTime (fst (currentMillis w)) (startTime g))
                  (machineID g) seq, None),
          snd (currentMillis w),
          set_lastTimestamp (fst (currentMillis w)) g1).
Proof.
  unfold currentMillis. cbv zeta. cbn [fst snd].
  intros Hle Hcall Hseq Hdf.
  unfold NextID, currentMillis. cbv zeta.
  destruct (Z.ltb_spec (Z.quot (UnixNano (Now w)) 1000000) (lastTimestamp g));
    [ lia | ].
  unfold resolveAndPack. rewrite Hcall, awaitSequence_eq.
  destruct (Z.geb_spec seq MaxSequence); [ lia | ].
  destruct (callSequenceResolver_spec _ _ _ _ _ _ Hcall)
    as [(_ & Em & Es & _) _].
  unfold storeAndPack. cbn [startTime machineID set_lastTimestamp].
  rewrite Em, Es.
  destruct (Z.ltb_spec (elapsedTime (Z.quot (UnixNano (Now w)) 1000000)
                                    (startTime g)) 0); [ lia | ].
  change MaxTimestamp with (2 ^ 43 - 1) in *.
  rewrite uint64_small by lia.
  destruct (Z.gtb_spec (elapsedTime (Z.quot (UnixNano (Now w)) 1000000)
                                    (startTime g)) (2 ^ 43 - 1)); [ lia | ].
  reflexivity.
Qed.

Lemma NextID_without_waiting_witness :
  NextID 0 clock2008 machine5
  = Some ((packID (elapsedTime (fst (currentMillis clock2008))
                               (startTime machine5))
                  (machineID machine5) 0, None),
          snd (currentMillis clock2008),
          set_lastTimestamp (fst (currentMillis clock2008))
            (set_atomicState {| lastTime := 1226358001000; lastSeq := 0 |}
                             machine5)).
Proof.
  apply (NextID_without_waiting 0 clock2008 machine5
           (set_atomicState {| lastTime := 1226358001000; lastSeq := 0 |}
                            machine5) 0).
  - vm_compute. discriminate.
  - reflexivity.
  - vm_compute. reflexivity.
  - vm_compute. split; discriminate.
Defined.

Section ResolverErrors.

Context {RS : Type}.

Lemma awaitSequence_error (g0 : Globals RS) (fuel : nat) :
  forall now seq w g id e w' g',
    awaitSequence fuel (callSequenceResolver g0) now seq w g
      = Some ((id, Some (ResolverError e)), w', g') ->
    exists ms gp s, callSequenceResolver g0 ms gp = ((s, Some e), g').
Proof.
  induction fuel as [ | fuel IH]; intros now seq w g id e w' g' H;
    rewrite awaitSequence_eq in H;
    destruct (seq >=? MaxSequence); try discriminate.
  1, 3:
    destruct (storeAndPack now seq g) as [r0 g0'] eqn:Esp;
    injection H as -> <- <-;
    apply storeAndPack_spec in Esp; destruct Esp as [_ Esp];
    destruct Esp as [[_ Esp] | [_ Esp]]; discriminate.
  destruct (waitForNextMillis (S fuel) now w) as [[now1 w1] | ];
    [ | discriminate ].
  destruct (callSequenceResolver g0 now1 g) as [[seq1 [e1 | ]] g1] eqn:Ec.
  - injection H as _ <- _ <-. eauto.
  - eapply IH; eassumption.
Qed.

(** X9. An error that [NextID] hands on from the resolver is the error of a
    resolver call the call made; the ID returned with it is 0, and neither
    the configuration nor the watermark has changed. *)
Theorem resolver_error_propagated (fuel : nat) (w : World) (g : Globals RS)
        (id : Z) (e : string) (w' : World) (g' : Globals RS) :
  NextID fuel w g = Some ((id, Some (ResolverError e)), w', g') ->
  id = 0 /\
  lastTimestamp g' = lastTimestamp g /\
  resolver g' = resolver g /\ machineID g' = machineID g /\
  startTime g' = startTime g /\
  exists ms gp s, callSequenceResolver g ms gp = ((s, Some e), g').
Proof.
  intros H.
  assert (Hcfg : id = 0 /\ sameConfig g g').
  { apply NextID_outcome in H.
    destruct H as [[H _] | [(e0 & H & Hc) | H]]; try discriminate.
    - injection H as -> _. now split.
    - destruct H as (now & seq & _ & _ & _ & gm & _ & _ & _ & Hp).
      destruct Hp as [[_ Hp] | [_ Hp]]; discriminate. }
  destruct Hcfg as (-> & Er & Em & Es & El).
  do 5 (split; [ first [ reflexivity | assumption ] | ]).
  assert (Hrp : exists now w0, resolveAndPack fuel now w0 g
                = Some ((0, Some (ResolverError e)), w', g')).
  { revert H. unfold NextID, currentMillis. cbv zeta.
    destruct (_ <? _); [ destruct (_ >? _); [ discriminate | ] | ];
      intros H; eauto. }
  destruct Hrp as (now & w0 & Hrp). unfold resolveAndPack in Hrp.
  destruct (callSequenceResolver g now g) as [[seq [e1 | ]] g1] eqn:Ec.
  - injection Hrp as <- _ <-. eauto.
  - eapply awaitSequence_error; eassumption.
Qed.

(** X10. A custom resolver installed with [SetSequenceResolver] is the one
    [NextID] calls: when the clock is not behind the watermark and the
    resolver fails for the first reading, [NextID] returns that error with
    the ID 0 whatever the fuel, having changed only what the resolver
    keeps. *)
Theorem installed_resolver_fails (fuel : nat) (w : World) (g : Globals RS)
        (r : SequenceResolver RS) (x : Z) (e : string) (st : RS) :
  lastTimestamp g <= fst (currentMillis w) ->
  r (fst (currentMillis w)) (resolverState g) = ((x, Some e), st) ->
  NextID fuel w (SetSequenceResolver (Some r) g)
  = Some ((0, Some (ResolverError e)), snd (currentMillis w),
          set_resolverState st (set_resolver (Some r) g)).
Proof.
  unfold currentMillis. cbv zeta. cbn [fst snd].
  intros Hle Hr.
  unfold NextID, currentMillis, SetSequenceResolver. cbv zeta.
  cbn [lastTimestamp set_resolver].
  destruct (Z.ltb_spec (Z.quot (UnixNano (Now w)) 1000000) (lastTimestamp g));
    [ lia | ].
  unfold resolveAndPack, callSequenceResolver, runCustom.
  cbn [resolver resolverState set_resolver].
  rewrite Hr. reflexivity.
Qed.

End ResolverErrors.

Lemma resolver_error_propagated_witness :
  0 = 0 /\
  lastTimestamp (set_resolver (Some failing) (initial tt))
  = lastTimestamp (set_resolver (Some failing) (initial tt)) /\
  resolver (set_resolver (Some failing) (initial tt))
  = resolver (set_resolver (Some failing) (initial tt)) /\
  machineID (set_resolver (Some failing) (initial tt))
  = machineID (set_resolver (Some failing) (initial tt)) /\
  startTime (set_resolver (Some failing) (initial tt))
  = startTime (set_resolver (Some failing) (initial tt)) /\
  exists ms gp s,
    callSequenceResolver (set_resolver (Some failing) (initial tt)) ms gp
    = ((s, Some "no sequence"%string),
       set_resolver (Some failing) (initial tt)).
Proof.
  apply (resolver_error_propagated 1 clock2008
           (set_resolver (Some failing) (initial tt)) 0 "no sequence"
           (Now clock2008) (set_resolver (Some failing) (initial tt))).
  reflexivity.
Defined.

Lemma installed_resolver_fails_witness :
  NextID 0 clock2008 (SetSequenceResolver (Some failing) (initial tt))
  = Some ((0, Some (ResolverError "no sequence")),
          snd (currentMillis clock2008),
          set_resolverState tt (set_resolver (Some failing) (initial tt))).
Proof.
  apply (installed_resolver_fails 0 clock2008 (initial tt) failing 0
           "no sequence" tt).
  - vm_compute. discriminate.
  - reflexivity.
Defined.

(** * The tolerance, the best-effort entry point and the configuration *)

Section Tolerance.

Context {RS : Type}.

Lemma NextID_far_behind (fuel : nat) (w : World) (g : Globals RS) :
  msRange (lastTimestamp g) ->
  5000 < lastTimestamp g - firstReading w ->
  NextID fuel w g = Some ((0, Some ClockBackwardError), Now w, g).
Proof.
  intros Hl Hback.
  assert (Hn : msRange (firstReading w))
    by apply quot_million_range, int64_range.
  unfold NextID, currentMillis. cbv zeta. fold (firstReading w).
  unfold msRange in *.
  destruct (Z.ltb_spec (firstReading w) (lastTimestamp g)); [ | lia ].
  assert (E : sub64 (lastTimestamp g) (firstReading w)
              = lastTimestamp g - firstReading w)
    by (apply int64_small; lia).
  rewrite E.
  destruct (Z.gtb_spec (lastTimestamp g - firstReading w) 5000);
    [ reflexivity | lia ].
Qed.

(** X11. The tolerance is exactly 5000 ms: a call that returns has refused
    the clock if and only if its first reading was more than 5000 ms behind
    the watermark.  At 5000 ms behind or less it sleeps and goes on. *)
Theorem clock_backward_iff (fuel : nat) (w : World) (g : Globals RS)
        (id : Z) (err : option error) (w' : World) (g' : Globals RS) :
  msRange (lastTimestamp g) ->
  NextID fuel w g = Some ((id, err), w', g') ->
  (err = Some ClockBackwardError <->
   5000 < lastTimestamp g - fst (currentMillis w)).
Proof.
  intros Hl H. change (fst (currentMillis w)) with (firstReading w).
  assert (Hn : msRange (firstReading w))
    by apply quot_million_range, int64_range.
  split.
  - intros ->. apply NextID_inv in H.
    destruct H as [(Hlt & Hfar & _) | [(e & He & _) | [[_ Hs] | (_ & _ & Hs)]]].
    + unfold msRange, sub64 in *.
      rewrite int64_small in Hfar by lia. exact Hfar.
    + discriminate.
    + destruct Hs as (? & ? & ? & ? & _ & _ & _ & Hsp & _).
      apply storeAndPack_spec in Hsp.
      destruct Hsp as [_ [[_ Hsp] | [_ Hsp]]]; discriminate.
    + destruct Hs as (? & ? & ? & ? & _ & _ & _ & Hsp & _).
      apply storeAndPack_spec in Hsp.
      destruct Hsp as [_ [[_ Hsp] | [_ Hsp]]]; discriminate.
  - intros Hfar. rewrite (NextID_far_behind fuel w g Hl Hfar) in H.
    now injection H as _ <- _ _.
Qed.

Lemma NextID_error_zero (fuel : nat) (w : World) (g : Globals RS)
      (id : Z) (e : error) (w' : World) (g' : Globals RS) :
  NextID fuel w g = Some ((id, Some e), w', g') -> id = 0.
Proof.
  intros H. apply NextID_outcome in H.
  destruct H as [[H _] | [(e0 & H & _) | H]].
  - now injection H as ->.
  - now injection H as ->.
  - destruct H as (now & seq & _ & _ & _ & gm & _ & _ & _ & Hp).
    destruct Hp as [[_ Hp] | [_ Hp]]; [ now injection Hp as -> | ].
    discriminate.
Qed.

(** X12. What the result of [ID] tells its caller: a result other than 0 is
    an ID that [NextID] generated without error; the result 0 means that
    [NextID] failed, or that machine 0 generated the ID of sequence 0 in the
    very millisecond of the start time. *)
Theorem ID_result (fuel : nat) (w : World) (g : Globals RS)
        (id : Z) (w' : World) (g' : Globals RS) :
  Inv g ->
  ID_ fuel w g = Some (id, w', g') ->
  (id <> 0 -> NextID fuel w g = Some ((id, None), w', g')) /\
  (id = 0 ->
   (exists e, NextID fuel w g = Some ((0, Some e), w', g')) \/
   (NextID fuel w g = Some ((0, None), w', g') /\
    machineID g = 0 /\ lastTimestamp g' = epochMillis (startTime g))).
Proof.
  intros [Hm _]. unfold ID_.
  destruct (NextID fuel w g) as [[[[id0 [e | ]] w0] g0] | ] eqn:H;
    intros E; [ | | discriminate ]; injection E as -> -> ->.
  - pose proof (NextID_error_zero _ _ _ _ _ _ _ H) as ->.
    split; [ intros C; now contradiction C | ]. intros _. left. now exists e.
  - split; [ reflexivity | ]. intros ->. right.
    split; [ reflexivity | ].
    apply NextID_success in H.
    destruct H as (now & seq & Hs & _ & _ & -> & _ & _ & _ & Hdf & E).
    assert (Hs' : 0 <= seq <= MaxSequence) by lia.
    pose proof (Timestamp_packID _ _ _ Hdf Hm Hs') as T.
    pose proof (MachineID_packID _ _ _ Hdf Hm Hs') as M.
    rewrite <- E in T, M.
    change (Timestamp (ParseID 0)) with 0 in T.
    change (MachineID (ParseID 0)) with 0 in M.
    split; [ now symmetry | lia ].
Qed.

(** X16. [NextID] never changes the configuration: the resolver, the machine
    ID and the start time are after the call what they were before, however
    it ends; and the watermark is unchanged or is the last reading of the
    clock the call took. *)
Theorem NextID_keeps_config (fuel : nat) (w : World) (g : Globals RS)
        (r : result) (w' : World) (g' : Globals RS) :
  NextID fuel w g = Some (r, w', g') ->
  resolver g' = resolver g /\ machineID g' = machineID g /\
  startTime g' = startTime g /\
  (lastTimestamp g' = lastTimestamp g \/
   lastTimestamp g' = Z.quot (UnixNano w') 1000000).
Proof.
  intros H. apply NextID_outcome in H.
  destruct H as [[_ ->] | [(e & _ & Hc) | H]].
  - repeat split. now left.
  - destruct Hc as (Er & Em & Es & El). repeat split; try assumption.
    now left.
  - destruct H as (now & seq & _ & _ & Hrd & gm & Hc & -> & _).
    destruct Hc as (Er & Em & Es & _).
    cbn [resolver machineID startTime lastTimestamp set_lastTimestamp].
    repeat split; try assumption. now right.
Qed.

(** X15. The machine ID that [SetMachineID] accepted is the one in every ID
    generated afterwards. *)
Theorem machineID_in_ids (m : Z) (fuel : nat) (w : World)
        (g g1 : Globals RS) (id : Z) (w' : World) (g' : Globals RS) :
  0 <= m < 2 ^ 16 ->
  SetMachineID m g = Returned g1 ->
  NextID fuel w g1 = Some ((id, None), w', g') ->
  m <= 511 /\ MachineID (ParseID id) = m.
Proof.
  intros Hm Hset H. unfold SetMachineID in Hset.
  change MaxMachineID with 511 in Hset.
  destruct (Z.gtb_spec m 511) as [Hgt | Hle]; [ discriminate | ].
  injection Hset as <-. rewrite (uint64_small m) in H by lia.
  split; [ exact Hle | ].
  apply NextID_success in H.
  destruct H as (now & seq & Hs & _ & _ & _ & _ & _ & _ & Hdf & ->).
  cbn [machineID set_machineID startTime] in *.
  apply MachineID_packID; try assumption.
  - change MaxMachineID with 511. lia.
  - lia.
Qed.

(** X14. The invariant [Inv] (machine ID at most 511, watermark 0 or a
    possible reading of the clock) holds when the package starts and is
    kept by [NextID] and by the three setters. *)
Theorem Inv_kept :
  (forall s : RS, Inv (initial s)) /\
  (forall fuel w (g : Globals RS) r w' g',
      Inv g -> NextID fuel w g = Some (r, w', g') -> Inv g') /\
  (forall m (g g' : Globals RS),
      0 <= m < 2 ^ 16 -> Inv g -> SetMachineID m g = Returned g' -> Inv g') /\
  (forall x (g : Globals RS), Inv g -> Inv (SetSequenceResolver x g)) /\
  (forall s w (g : Globals RS) w' g',
      Inv g -> SetStartTime s w g = Returned (w', g') -> Inv g').
Proof.
  split; [ exact initial_Inv | ].
  split; [ exact NextID_Inv | ].
  split; [ exact SetMachineID_Inv | ].
  split.
  - intros [r | ] g Hg; exact Hg.
  - intros s w g w' g' Hg H.
    destruct (SetStartTime_cases s w g) as [_ Hout].
    destruct (Hout _ _ H) as [_ ->]. exact Hg.
Qed.

End Tolerance.

Lemma clock_backward_iff_witness :
  @None error = Some ClockBackwardError <->
  5000 < lastTimestamp ahead100 - fst (currentMillis clock2008).
Proof.
  apply (clock_backward_iff 1 clock2008 ahead100 2306867200 None
           (Now (Sleep (100 * Millisecond) (Now clock2008)))
           (set_lastTimestamp 1226358001100
              (set_atomicState {| lastTime := 1226358001100; lastSeq := 0 |}
                               ahead100))).
  - vm_compute. split; discriminate.
  - reflexivity.
Defined.

Lemma ID_result_witness :
  NextID 1 clock2008 machine5
  = Some ((2097172480, None), Now clock2008,
          set_lastTimestamp 1226358001000
            (set_atomicState {| lastTime := 1226358001000; lastSeq := 0 |}
                             machine5)).
Proof.
  apply (proj1 (ID_result 1 clock2008 machine5 2097172480 (Now clock2008)
                  (set_lastTimestamp 1226358001000
                     (set_atomicState
                        {| lastTime := 1226358001000; lastSeq := 0 |}
                        machine5))
                  ltac:(split; vm_compute; split; discriminate)
                  ltac:(reflexivity))).
  discriminate.
Defined.

Lemma NextID_keeps_config_witness :
  resolver ahead6000 = resolver ahead6000 /\
  machineID ahead6000 = machineID ahead6000 /\
  startTime ahead6000 = startTime ahead6000 /\
  (lastTimestamp ahead6000 = lastTimestamp ahead6000 \/
   lastTimestamp ahead6000 = Z.quot (UnixNano (Now clock2008)) 1000000).
Proof.
  apply (NextID_keeps_config 3 clock2008 ahead6000
           (0, Some ClockBackwardError) (Now clock2008) ahead6000).
  reflexivity.
Defined.

Lemma machineID_in_ids_witness :
  5 <= 511 /\ MachineID (ParseID 2097172480) = 5.
Proof.
  apply (machineID_in_ids 5 1 clock2008 (initial tt) machine5 2097172480
           (Now clock2008)
           (set_lastTimestamp 1226358001000
              (set_atomicState {| lastTime := 1226358001000; lastSeq := 0 |}
                               machine5))).
  - lia.
  - reflexivity.
  - reflexivity.
Defined.

Lemma Inv_kept_witness :
  Inv (set_lastTimestamp 1226358001000
         (set_atomicState {| lastTime := 1226358001000; lastSeq := 0 |}
                          machine5)).
Proof.
  apply (proj1 (proj2 (@Inv_kept unit)) 1%nat clock2008 machine5
               (2097172480, None) (Now clock2008)).
  - split; vm_compute; split; discriminate.
  - reflexivity.
Defined.

Lemma watermark_not_older_witness :
  lastTimestamp ahead100
  <= lastTimestamp
       (set_lastTimestamp 1226358001100
          (set_atomicState {| lastTime := 1226358001100; lastSeq := 0 |}
                           ahead100)).
Proof.
  apply (watermark_not_older 1 clock2008 ahead100 2306867200
           (Now (Sleep (100 * Millisecond) (Now clock2008)))).
  - split; vm_compute; split; discriminate.
  - intros n. vm_compute. discriminate.
  - vm_compute. discriminate.
  - vm_compute. reflexivity.
  - reflexivity.
Defined.

(** * IDs of one caller, as numbers *)

Section Increase.

Context {RS : Type}.

Lemma same_millisecond_strict (g gp gm1 gm2 : Globals RS)
      (r : SequenceResolver RS) ms v seq1 seq2 :
  resolver g = Some r -> strictlyIncreasing r ->
  callSequenceResolver g ms gp = ((seq1, None), gm1) ->
  seq1 < MaxSequence ->
  callSequenceResolver g ms (set_lastTimestamp v gm1) = ((seq2, None), gm2) ->
  seq1 < seq2.
Proof.
  intros Er Hst. unfold callSequenceResolver. rewrite Er. unfold runCustom.
  destruct (r ms (resolverState gp)) as [[x e1] s1] eqn:E1.
  intros H1 Hlt. injection H1 as <- -> <-.
  cbn [resolverState set_lastTimestamp set_resolverState].
  destruct (r ms s1) as [[y e2] s2] eqn:E2.
  intros H2. injection H2 as <- -> _.
  exact (Hst _ _ _ _ _ _ E1 Hlt E2).
Qed.

(** X17. With a custom resolver that is strictly increasing within a
    millisecond and a clock that is never set back (and stays within what
    [UnixNano] can represent), the IDs of two successful calls in a row
    increase as numbers: a caller never gets the same ID twice in a row,
    nor a smaller one. *)
Theorem ids_increase (fuel1 fuel2 : nat) (w : World) (g : Globals RS)
        (r : SequenceResolver RS)
        (id1 id2 : Z) (w1 w2 : World) (g1 g2 : Globals RS) :
  Inv g ->
  resolver g = Some r -> strictlyIncreasing r ->
  forward w ->
  - 2 ^ 63 <= wall w -> wall w2 < 2 ^ 63 ->
  NextID fuel1 w g = Some ((id1, None), w1, g1) ->
  NextID fuel2 w1 g1 = Some ((id2, None), w2, g2) ->
  id1 < id2.
Proof.
  intros [Hmach _] Eres Hst F Hlo Hhi H1 H2.
  destruct (NextID_forward _ _ _ _ _ _ F H1) as (La & Lb & F1).
  destruct (NextID_forward _ _ _ _ _ _ F1 H2) as (Lc & Ld & _).
  destruct (NextID_last_call _ _ _ _ _ _ H1)
    as (now1 & seq1 & gp & gm1 & Hs1 & Hrd1 & Hcall1 & Hcfg & -> & Hdf1
        & ->).
  assert (Hmono : now1 <= firstReading w1).
  { rewrite Hrd1. unfold firstReading, UnixNano.
    rewrite !int64_small by lia. apply quot_million_mono. lia. }
  destruct Hcfg as (Er & Em & Es & _).
  assert (Hle : lastTimestamp (set_lastTimestamp now1 gm1)
                <= firstReading w1) by exact Hmono.
  destruct (NextID_first_call _ _ _ _ _ _ Hle H2)
    as (now2 & seq2 & Hs2 & Hdf2 & -> & Hcase).
  cbn [startTime machineID set_lastTimestamp] in *.
  rewrite Es, Em in *.
  assert (Hseq : now1 = now2 -> seq1 < seq2).
  { intros Heq.
    destruct Hcase as [[Hnow2 [gm2 Hcall2]] | Hlater]; [ | lia ].
    rewrite <- Heq in Hcall2.
    rewrite (callSequenceResolver_resolver g) in Hcall2 by exact Er.
    exact (same_millisecond_strict _ _ _ _ _ _ _ _ _ Eres Hst Hcall1
                                   (proj2 Hs1) Hcall2). }
  assert (Hnow : now1 <= now2) by (destruct Hcase as [[-> _] | Hl]; lia).
  rewrite !packID_sum by (try assumption; lia).
  change MaxSequence with 4095 in *.
  change (2 ^ 21) with 2097152. change (2 ^ 12) with 4096.
  destruct (Z.eq_dec now1 now2) as [Heq | Hne].
  - specialize (Hseq Heq). subst now2. lia.
  - lia.
Qed.

End Increase.

Lemma counter_strict : strictlyIncreasing counter.
Proof.
  intros ms s x s1 y s2 H1 Hlt H2. unfold counter in *.
  assert (Hstep : forall c, uint16 c < MaxSequence ->
                            uint16 c < uint16 (c + 1)).
  { intros c Hc. pose proof (uint16_range c) as Hr.
    unfold uint16 in *. change MaxSequence with 4095 in Hc.
    rewrite Z.add_mod by lia.
    change (1 mod 2 ^ 16) with 1.
    rewrite (Z.mod_small (c mod 2 ^ 16 + 1)) by lia. lia. }
  destruct (Z.eqb_spec ms (fst s)) as [Eq | Ne];
    injection H1 as <- <-; cbn [fst snd] in H2.
  - rewrite Eq, Z.eqb_refl in H2. injection H2 as <- _.
    now apply Hstep.
  - rewrite Z.eqb_refl in H2. injection H2 as <- _. reflexivity.
Qed.

Lemma ids_increase_witness : 2097172480 < 2097172481.
Proof.
  apply (ids_increase 1 1 clock2008 counting counter
           2097172480 2097172481
           (Now clock2008) (Now (Now clock2008))
           (set_lastTimestamp 1226358001000
              (set_resolverState (1226358001000, 0) counting))
           (set_lastTimestamp 1226358001000
              (set_resolverState (1226358001000, 1) counting))).
  - split; vm_compute; split; discriminate.
  - reflexivity.
  - exact counter_strict.
  - intros n. vm_compute. discriminate.
  - vm_compute. discriminate.
  - vm_compute. reflexivity.
  - reflexivity.
  - reflexivity.
Defined.
